(** * QuickPoll: the poll store, the HTTP handlers and the WebSocket
    connection manager of [backend/app], embedded in Rocq.

  Layout, following the source files:
  - [PyStr]     Python [str] values and [str.strip]
  - [Models]    [models.py]  : the two tables, [Poll] and [PollOption]
  - [Schemas]   [schemas.py] : request bodies and the serialised poll
  - [Runtime]   exceptions, events, the trace of effects and the
                state-and-exception monad the handlers run in
  - [Manager]   [websocket_manager.py] : [ConnectionManager]
  - [Main]      [main.py] : the handlers and the WebSocket endpoint
  - [Obs]       what the statements observe of a run
  - [Sample]    concrete worlds
  then the lemmas on each part and the properties of the system.

  Python integers are unbounded and are modelled by [Z]. A [WebSocket]
  object is modelled by its identity. *)

From Stdlib Require Import ZArith NArith List String Ascii Lia Bool.
From stdpp Require Import base gmap sets list.

Open Scope Z_scope.
Set Warnings "-clear-no-such-hyp".

(* ===================================================================== *)
(** ** Python strings *)
(* ===================================================================== *)

Module PyStr.

(** A [str] is a sequence of Unicode code points. *)
Definition str := list N.

(** [ch.isspace()] as CPython decides it: the ASCII table
    [_Py_ascii_whitespace] below 128 and [_PyUnicode_IsWhitespace]
    above. *)
Definition isspace (c : N) : bool :=
  ((9 <=? c) && (c <=? 13)
   || (28 <=? c) && (c <=? 32)
   || (c =? 133) || (c =? 160) || (c =? 5760)
   || (8192 <=? c) && (c <=? 8202)
   || (c =? 8232) || (c =? 8233) || (c =? 8239) || (c =? 8287)
   || (c =? 12288))%N.

Fixpoint lstrip (s : str) : str :=
  match s with
  | c :: s' => if isspace c then lstrip s' else s
  | [] => []
  end.

Definition rstrip (s : str) : str := rev (lstrip (rev s)).

(** [s.strip()] with no argument: whitespace removed at both ends. *)
Definition strip (s : str) : str := rstrip (lstrip s).

(** Truth value of a string: [if s] holds for a non-empty [s]. *)
Definition truthy (s : str) : bool :=
  match s with [] => false | _ :: _ => true end.

(** Literals for examples: the code points of an ASCII text. *)
Definition lit (s : string) : str :=
  List.map N_of_ascii (list_ascii_of_string s).

(** What "trimmed" means for a stored text: neither its first nor its
    last character is whitespace. *)
Definition starts_with_space (s : str) : bool :=
  match s with c :: _ => isspace c | [] => false end.

Definition ends_with_space (s : str) : bool := starts_with_space (rev s).

Definition trimmed (s : str) : bool :=
  negb (starts_with_space s) && negb (ends_with_space s).

End PyStr.

(* ===================================================================== *)
(** ** models.py *)
(* ===================================================================== *)

Module Models.
Import PyStr.

(** A row of table [poll]. [id] is the primary key the database has
    assigned; [created_at] is the value [datetime.utcnow] returned when
    the object was built. *)
Record Poll := mkPoll {
  poll_pk : Z;
  question : str;
  description : option str;
  created_at : Z;
  likes : Z
}.

(** A row of table [poll_option]; [poll_id] is the foreign key. *)
Record PollOption := mkPollOption {
  option_pk : Z;
  text : str;
  votes : Z;
  poll_id : Z
}.

(** The database: both tables, rows in insertion order. *)
Record Store := mkStore {
  polls : list Poll;
  poll_options : list PollOption
}.

Definition empty_store : Store := mkStore [] [].

(** Primary key given to the next inserted row: SQLite takes one more
    than the largest rowid in use, and 1 for an empty table. *)
Definition next_rowid (keys : list Z) : Z :=
  1 + fold_right Z.max 0 keys.

(** The integers SQLite stores and the driver binds as a query
    parameter: the signed 64-bit range. *)
Definition in_int64 (k : Z) : bool :=
  (- 2 ^ 63 <=? k) && (k <=? 2 ^ 63 - 1).

(** The row [select(Poll).where(Poll.id == poll_id)] matches in the
    table; what the driver does with the parameter is in
    [Main.exec_select_poll]. *)
Definition select_poll (s : Store) (pid : Z) : option Poll :=
  List.find (fun p => poll_pk p =? pid) (polls s).

(** The row [session.get(PollOption, option_id)] matches in the table;
    what the driver does with the parameter is in [Main.session_get]. *)
Definition get_option (s : Store) (oid : Z) : option PollOption :=
  List.find (fun o => option_pk o =? oid) (poll_options s).

(** The relationship [poll.options]: the option rows whose foreign key
    is the poll. *)
Definition options_of (s : Store) (pid : Z) : list PollOption :=
  List.filter (fun o => poll_id o =? pid) (poll_options s).

(** Insertion that keeps a list ordered by [created_at], newest first;
    used for [order_by(Poll.created_at.desc())]. A row goes before the
    rows of the same time already in the list: with the table folded from
    its last row, rows of equal time come out in table order, as SQLite's
    sorter leaves them. *)
Fixpoint insert_desc (p : Poll) (l : list Poll) : list Poll :=
  match l with
  | [] => [p]
  | q :: l' =>
      if created_at q <=? created_at p then p :: l
      else q :: insert_desc p l'
  end.

Definition select_polls_desc (s : Store) : list Poll :=
  fold_right insert_desc [] (polls s).

(** [UPDATE poll_option SET votes = v WHERE id = oid]. *)
Definition update_votes (s : Store) (oid v : Z) : Store :=
  mkStore (polls s)
    (List.map (fun o =>
       if option_pk o =? oid
       then mkPollOption (option_pk o) (text o) v (poll_id o)
       else o) (poll_options s)).

(** [UPDATE poll SET likes = v WHERE id = pid]. *)
Definition update_likes (s : Store) (pid v : Z) : Store :=
  mkStore
    (List.map (fun p =>
       if poll_pk p =? pid
       then mkPoll (poll_pk p) (question p) (description p) (created_at p) v
       else p) (polls s))
    (poll_options s).

(** Inserting the option rows of a new poll, one after the other; each
    gets the next rowid and the default [votes = 0]. *)
Fixpoint insert_options (tbl : list PollOption) (pid : Z) (texts : list str)
  : list PollOption :=
  match texts with
  | [] => tbl
  | t :: texts' =>
      insert_options
        (tbl ++ [mkPollOption (next_rowid (List.map option_pk tbl)) t 0 pid])
        pid texts'
  end.

(** [session.add(poll); session.commit()] for a new poll with its
    options: the poll row first, then its option rows. Returns the key
    of the new poll. [likes] takes its default 0. *)
Definition insert_poll (s : Store) (q : str) (d : option str) (now : Z)
    (texts : list str) : Z * Store :=
  let pid := next_rowid (List.map poll_pk (polls s)) in
  (pid,
   mkStore (polls s ++ [mkPoll pid q d now 0])
           (insert_options (poll_options s) pid texts)).

(** Referential integrity: every option row points to a poll row. *)
Definition fk_ok (s : Store) : bool :=
  forallb (fun o => existsb (fun p => poll_pk p =? poll_id o) (polls s))
          (poll_options s).

End Models.

(* ===================================================================== *)
(** ** schemas.py *)
(* ===================================================================== *)

Module Schemas.
Import PyStr.

Record PollOptionRead := mkPollOptionRead {
  or_id : Z;
  or_text : str;
  or_votes : Z
}.

Record PollRead := mkPollRead {
  pr_id : Z;
  pr_question : str;
  pr_description : option str;
  pr_likes : Z;
  pr_created_at : Z;
  pr_options : list PollOptionRead
}.

Record PollCreate := mkPollCreate {
  pc_question : str;
  pc_description : option str;
  pc_options : list str
}.

Record VoteRequest := mkVoteRequest { option_id : Z }.

End Schemas.

(* ===================================================================== *)
(** ** Exceptions, events, effects *)
(* ===================================================================== *)

Module Runtime.
Import Models Schemas.

(** A [WebSocket] object, identified by its identity. *)
Definition WebSocket := nat.

(** The exceptions the code raises or catches. All are subclasses of
    [Exception]. [RuntimeError] stands for whatever else the transport
    raises on a dead connection; [OverflowError] is what the SQLite driver
    raises for an integer parameter outside the signed 64-bit range. *)
Inductive exn :=
| HTTPException (status_code : Z) (detail : string)
| WebSocketDisconnect
| RuntimeError
| OverflowError.

(** The JSON messages sent to clients, by their ["type"]. *)
Inductive Event :=
| poll_created (poll : PollRead)
| poll_updated (poll : PollRead)
| poll_snapshot (polls : list PollRead).

(** What another task does to the connection set while this one is
    suspended. *)
Inductive reg_op :=
| OpAdd (ws : WebSocket)
| OpDiscard (ws : WebSocket).

(** One [await] on network I/O: the coroutine is suspended, other tasks
    run and complete the registry operations [meanwhile], and the awaited
    call then returns or raises [raised]. An awaited call that never
    completes is not described here: every accept, send and receive of a
    run is one that ends. Acquiring [self._lock] is no suspension point:
    no coroutine holds it across an [await], so it is always free. *)
Record io := mkIO {
  meanwhile : list reg_op;
  raised : option exn
}.

Definition io_ok : io := mkIO [] None.
Definition io_fail (e : exn) : io := mkIO [] (Some e).

(** The effects of a run, in the order they happen. [SendJson] records a
    delivery attempt and whether it succeeded; [Meanwhile] is an effect of
    another task. *)
Inductive Action :=
| Accept (ws : WebSocket)
| Add (ws : WebSocket)
| Discard (ws : WebSocket)
| SendJson (ws : WebSocket) (message : Event) (ok : bool)
| ReceiveText (ws : WebSocket)
| Meanwhile (op : reg_op).

(** The state the handlers share: the database, the connection set of the
    one [ConnectionManager] instance [manager], and the trace so far. *)
Record World := mkWorld {
  db : Store;
  _connections : gset WebSocket;
  trace : list Action
}.

(** How a coroutine ends: it returns, it raises, or it is still suspended
    when the modelled input is used up. *)
Inductive outcome (A : Type) :=
| Return (a : A)
| Raise (e : exn)
| Pending.
Arguments Return {A} a.
Arguments Raise {A} e.
Arguments Pending {A}.

Definition M (A : Type) : Type := World -> outcome A * World.

Definition ret {A} (a : A) : M A := fun w => (Return a, w).

Definition bind {A B} (m : M A) (k : A -> M B) : M B :=
  fun w =>
    match m w with
    | (Return a, w') => k a w'
    | (Raise e, w') => (Raise e, w')
    | (Pending, w') => (Pending, w')
    end.

Definition raise {A} (e : exn) : M A := fun w => (Raise e, w).

Definition pending {A} : M A := fun w => (Pending, w).

(** [try: body / except Exception as e: handler e]. *)
Definition try_except {A} (body : M A) (handler : exn -> M A) : M A :=
  fun w =>
    match body w with
    | (Raise e, w') => handler e w'
    | r => r
    end.

Definition get_db : M Store := fun w => (Return (db w), w).

Definition set_db (s : Store) : M unit :=
  fun w => (Return tt, mkWorld s (_connections w) (trace w)).

Definition emit (a : Action) : M unit :=
  fun w => (Return tt, mkWorld (db w) (_connections w) (trace w ++ [a])).

Definition apply_op (op : reg_op) (c : gset WebSocket) : gset WebSocket :=
  match op with
  | OpAdd ws => {[ws]} ∪ c
  | OpDiscard ws => c ∖ {[ws]}
  end.

Definition apply_ops (ops : list reg_op) (c : gset WebSocket) : gset WebSocket :=
  fold_left (fun c op => apply_op op c) ops c.

(** The other tasks run while this one is suspended. *)
Definition others (ops : list reg_op) : M unit :=
  fun w => (Return tt,
            mkWorld (db w) (apply_ops ops (_connections w))
                    (trace w ++ List.map Meanwhile ops)).

(** [await websocket.accept()]. *)
Definition accept (ws : WebSocket) (x : io) : M unit :=
  bind (others (meanwhile x)) (fun _ =>
  match raised x with
  | None => emit (Accept ws)
  | Some e => raise e
  end).

(** [await websocket.send_json(message)]. *)
Definition send_json (ws : WebSocket) (message : Event) (x : io) : M unit :=
  bind (others (meanwhile x)) (fun _ =>
  match raised x with
  | None => emit (SendJson ws message true)
  | Some e => bind (emit (SendJson ws message false)) (fun _ => raise e)
  end).

(** [await websocket.receive_text()]; the text is dropped. *)
Definition receive_text (ws : WebSocket) (x : io) : M unit :=
  bind (others (meanwhile x)) (fun _ =>
  match raised x with
  | None => emit (ReceiveText ws)
  | Some e => raise e
  end).

#[global] Instance M_ret : MRet M := @ret.
#[global] Instance M_bind : MBind M := fun A B k m => bind m k.

End Runtime.


(* ===================================================================== *)
(** ** websocket_manager.py *)
(* ===================================================================== *)

Module Manager.
Import Runtime.

(** [self._connections.add(websocket)]. *)
Definition add (websocket : WebSocket) : M unit :=
  fun w => (Return tt,
            mkWorld (db w) ({[websocket]} ∪ _connections w)
                    (trace w ++ [Add websocket])).

(** [self._connections.discard(websocket)]. *)
Definition discard (websocket : WebSocket) : M unit :=
  fun w => (Return tt,
            mkWorld (db w) (_connections w ∖ {[websocket]})
                    (trace w ++ [Discard websocket])).

(** [ConnectionManager.connect]: the handshake, then the registration. *)
Definition connect (websocket : WebSocket) (x : io) : M unit :=
  accept websocket x ;;
  add websocket.

(** [ConnectionManager.disconnect]. *)
Definition disconnect (websocket : WebSocket) : M unit :=
  discard websocket.

(** [connections = list(self._connections)] under the lock. *)
Definition snapshot : M (list WebSocket) :=
  fun w => (Return (elements (_connections w)), w).

(** The delivery loop of [broadcast]: one [send_json] per connection of
    the list, a raised exception adds the connection to [stale]. *)
Fixpoint deliver (message : Event) (sched : WebSocket -> io)
    (connections : list WebSocket) (stale : gset WebSocket)
  : M (gset WebSocket) :=
  match connections with
  | [] => ret stale
  | connection :: rest =>
      stale' ← try_except
                 (send_json connection message (sched connection) ;; ret stale)
                 (fun _ => ret ({[connection]} ∪ stale));
      deliver message sched rest stale'
  end.

(** [for connection in stale: self._connections.discard(connection)]. *)
Fixpoint discard_all (stale : list WebSocket) : M unit :=
  match stale with
  | [] => ret tt
  | connection :: rest => discard connection ;; discard_all rest
  end.

(** [ConnectionManager.broadcast]. [sched] says, for each connection,
    what happens during the [await] of its [send_json]. *)
Definition broadcast (message : Event) (sched : WebSocket -> io) : M unit :=
  connections ← snapshot;
  stale ← deliver message sched connections ∅;
  if decide (stale = ∅) then ret tt
  else discard_all (elements stale).

End Manager.

(* ===================================================================== *)
(** ** main.py *)
(* ===================================================================== *)

Module Main.
Import PyStr Models Schemas Runtime Manager.

(** A [Poll] object whose relationship [options] has been loaded. *)
Record LoadedPoll := mkLoaded {
  row : Poll;
  options : list PollOption
}.

Definition load (s : Store) (p : Poll) : LoadedPoll :=
  mkLoaded p (options_of s (poll_pk p)).

Definition serialize_option (o : PollOption) : PollOptionRead :=
  mkPollOptionRead (option_pk o) (text o) (votes o).

(** [serialize_poll]: [PollRead.model_validate(poll)]. *)
Definition serialize_poll (poll : LoadedPoll) : PollRead :=
  mkPollRead (poll_pk (row poll)) (question (row poll))
             (description (row poll)) (likes (row poll))
             (created_at (row poll))
             (List.map serialize_option (options poll)).

(** Running [select(Poll).where(Poll.id == poll_id)] with
    [one_or_none()]. The driver binds [poll_id] as a 64-bit integer and
    raises [OverflowError] for any other. A key that is in the table has
    gone through the driver when it was stored, so the row is looked up
    first and only a key without a row is checked. *)
Definition exec_select_poll (s : Store) (poll_id : Z) : M (option Poll) :=
  match select_poll s poll_id with
  | Some poll => mret (Some poll)
  | None => if in_int64 poll_id then mret None else raise OverflowError
  end.

(** [session.get(PollOption, option_id)], with the same binding of the
    key. *)
Definition session_get (s : Store) (option_id : Z) : M (option PollOption) :=
  match get_option s option_id with
  | Some option => mret (Some option)
  | None => if in_int64 option_id then mret None else raise OverflowError
  end.

(** [get_poll_with_options]. *)
Definition get_poll_with_options (poll_id : Z) : M LoadedPoll :=
  s ← get_db;
  found ← exec_select_poll s poll_id;
  match found with
  | None => raise (HTTPException 404 "Poll not found")
  | Some poll => mret (load s poll)
  end.

(** [GET /polls]. *)
Definition list_polls : M (list PollRead) :=
  s ← get_db;
  mret (List.map (fun poll => serialize_poll (load s poll))
                 (select_polls_desc s)).

(** The option texts [create_poll] keeps:
    [[option.strip() for option in payload.options if option.strip()]]. *)
Definition clean_options (opts : list str) : list str :=
  List.map strip (List.filter (fun option => truthy (strip option)) opts).

(** [POST /polls]. [now] is the clock reading taken when the [Poll]
    object is built; [sched] drives the broadcast. *)
Definition create_poll (payload : PollCreate) (now : Z)
    (sched : WebSocket -> io) : M PollRead :=
  let options := clean_options (pc_options payload) in
  if (length options <? 2)%nat
  then raise (HTTPException 400 "A poll requires at least two options.")
  else
    s ← get_db;
    let '(pid, s') :=
      insert_poll s (strip (pc_question payload)) (pc_description payload)
                  now options in
    set_db s';;
    poll ← get_poll_with_options pid;
    let serialized := serialize_poll poll in
    broadcast (poll_created serialized) sched;;
    mret serialized.


(** [POST /polls/{poll_id}/vote]. *)
Definition vote_on_poll (poll_id : Z) (vote : VoteRequest)
    (sched : WebSocket -> io) : M PollRead :=
  poll ← get_poll_with_options poll_id;
  s ← get_db;
  found ← session_get s (option_id vote);
  match found with
  | None => raise (HTTPException 400 "Option does not belong to this poll.")
  | Some option =>
      if negb (Models.poll_id option =? poll_pk (row poll))
      then raise (HTTPException 400 "Option does not belong to this poll.")
      else
        set_db (update_votes s (option_pk option) (votes option + 1));;
        poll ← get_poll_with_options poll_id;
        let serialized := serialize_poll poll in
        broadcast (poll_updated serialized) sched;;
        mret serialized
  end.

(** [POST /polls/{poll_id}/like]. *)
Definition like_poll (poll_id : Z) (sched : WebSocket -> io) : M PollRead :=
  poll ← get_poll_with_options poll_id;
  s ← get_db;
  set_db (update_likes s (poll_pk (row poll)) (likes (row poll) + 1));;
  poll ← get_poll_with_options poll_id;
  let serialized := serialize_poll poll in
  broadcast (poll_updated serialized) sched;;
  mret serialized.

(** [while True: await websocket.receive_text()], with the inbound
    traffic [inbound]; when it is used up the coroutine stays suspended. *)
Fixpoint receive_loop (websocket : WebSocket) (inbound : list io) : M unit :=
  match inbound with
  | [] => pending
  | x :: rest => receive_text websocket x;; receive_loop websocket rest
  end.

(** [websocket_endpoint]. [hs] is the handshake inside [manager.connect],
    [snap] the [await] of the snapshot's [send_json]. *)
Definition websocket_endpoint (websocket : WebSocket) (hs snap : io)
    (inbound : list io) : M unit :=
  connect websocket hs;;
  try_except
    (polls ← list_polls;
     send_json websocket (poll_snapshot polls) snap;;
     receive_loop websocket inbound)
    (fun e =>
       match e with
       | WebSocketDisconnect => disconnect websocket
       | _ => disconnect websocket;; raise e
       end).

(** The requests that change the store, and a run of them one after the
    other from a world. A request that raises leaves its effects so far. *)
Inductive Request :=
| ReqCreate (payload : PollCreate) (now : Z) (sched : WebSocket -> io)
| ReqVote (poll_id : Z) (vote : VoteRequest) (sched : WebSocket -> io)
| ReqLike (poll_id : Z) (sched : WebSocket -> io).

Definition handle (r : Request) : M PollRead :=
  match r with
  | ReqCreate payload now sched => create_poll payload now sched
  | ReqVote poll_id vote sched => vote_on_poll poll_id vote sched
  | ReqLike poll_id sched => like_poll poll_id sched
  end.

Definition serve (rs : list Request) (w : World) : World :=
  fold_left (fun w r => snd (handle r w)) rs w.

End Main.

(* ===================================================================== *)
(** ** Vocabulary of the statements *)
(* ===================================================================== *)

Module Obs.
Import PyStr Models Schemas Runtime Manager Main.

#[global] Instance exn_eq_dec : EqDecision exn.
Proof. solve_decision. Defined.
#[global] Instance PollOptionRead_eq_dec : EqDecision PollOptionRead.
Proof. solve_decision. Defined.
#[global] Instance PollRead_eq_dec : EqDecision PollRead.
Proof. solve_decision. Defined.
#[global] Instance Event_eq_dec : EqDecision Event.
Proof. solve_decision. Defined.

(** The rows [insert_options] appends. *)
Fixpoint new_options (tbl : list PollOption) (pid : Z) (texts : list str)
  : list PollOption :=
  match texts with
  | [] => []
  | t :: texts' =>
      let o := mkPollOption (next_rowid (List.map option_pk tbl)) t 0 pid in
      o :: new_options (tbl ++ [o]) pid texts'
  end.

(** The send to [c] raises under [sched]. *)
Definition fails (sched : WebSocket -> io) (c : WebSocket) : bool :=
  match raised (sched c) with Some _ => true | None => false end.

(** The connections of [l] whose send raises. *)
Definition failed (sched : WebSocket -> io) (l : list WebSocket)
  : gset WebSocket :=
  list_to_set (List.filter (fails sched) l).

(** What the other tasks do to the connection set during the delivery
    loop over [l]. *)
Definition during (sched : WebSocket -> io) (l : list WebSocket)
  : list reg_op :=
  flat_map (fun c => meanwhile (sched c)) l.

(** The trace of the delivery loop over [l]. *)
Definition delivery_trace (message : Event) (sched : WebSocket -> io)
    (l : list WebSocket) : list Action :=
  flat_map (fun c => List.map Meanwhile (meanwhile (sched c))
                     ++ [SendJson c message (negb (fails sched c))]) l.

(** The world the delivery loop over [l] leaves. *)
Definition delivered (message : Event) (sched : WebSocket -> io)
    (l : list WebSocket) (w : World) : World :=
  mkWorld (db w)
          (apply_ops (during sched l) (_connections w))
          (trace w ++ delivery_trace message sched l).

(** The part of the trace a call has added, from the world it started in
    to the world it left. *)
Definition added_trace (w w' : World) : list Action :=
  drop (length (trace w)) (trace w').

(** Number of delivery attempts of [message] to [ws] in a trace. *)
Definition attempts (ws : WebSocket) (message : Event) (tr : list Action)
  : nat :=
  length (List.filter
            (fun a => match a with
                      | SendJson c m _ =>
                          bool_decide (c = ws) && bool_decide (m = message)
                      | _ => false
                      end) tr).

(** The connections this task itself has removed in a trace. *)
Definition own_discards (tr : list Action) : list WebSocket :=
  flat_map (fun a => match a with Discard c => [c] | _ => [] end) tr.

(** Position of the first action of a trace that satisfies [f]. *)
Fixpoint index_of (f : Action -> bool) (tr : list Action) : option nat :=
  match tr with
  | [] => None
  | a :: tr' => if f a then Some O else S <$> index_of f tr'
  end.

Definition is_add (ws : WebSocket) (a : Action) : bool :=
  match a with Add c => bool_decide (c = ws) | _ => false end.




(** The messages a trace shows as delivered to [ws], oldest first. *)
Definition delivered_to (ws : WebSocket) (tr : list Action) : list Event :=
  flat_map (fun a => match a with
                     | SendJson c m true => if bool_decide (c = ws) then [m] else []
                     | _ => []
                     end) tr.

(** The kind of a message with the likes and the votes it carries. *)
Definition digest (m : Event) : string * list (Z * list Z) :=
  let counts p := (pr_likes p, List.map or_votes (pr_options p)) in
  match m with
  | poll_created p => ("poll_created"%string, [counts p])
  | poll_updated p => ("poll_updated"%string, [counts p])
  | poll_snapshot ps => ("poll_snapshot"%string, List.map counts ps)
  end.

(** No counter of [s] is lower in [s']: every poll and option of [s] is
    still found in [s'] under its key, with at least as many likes or
    votes. *)
Definition counters_le (s s' : Store) : Prop :=
  (∀ pid p, select_poll s pid = Some p ->
            ∃ p', select_poll s' pid = Some p' ∧ likes p <= likes p')
  ∧ (∀ oid o, get_option s oid = Some o ->
              ∃ o', get_option s' oid = Some o' ∧ votes o <= votes o').

(** A use of the registry by some task, and a run of such uses one after
    the other. *)
Inductive Command :=
| DoConnect (ws : WebSocket) (x : io)
| DoDisconnect (ws : WebSocket)
| DoBroadcast (message : Event) (sched : WebSocket -> io).

Definition exec (c : Command) : M unit :=
  match c with
  | DoConnect ws x => connect ws x
  | DoDisconnect ws => disconnect ws
  | DoBroadcast message sched => broadcast message sched
  end.

Definition exec_all (cs : list Command) (w : World) : World :=
  fold_left (fun w c => snd (exec c w)) cs w.

(** A text made of whitespace only, the empty text included. *)
Definition blank (s : str) : bool := forallb isspace s.


(** A list of [created_at] values runs from newest to oldest. *)
Fixpoint newest_first (ts : list Z) : bool :=
  match ts with
  | t :: ((u :: _) as rest) => (u <=? t) && newest_first rest
  | _ => true
  end.

(** All the votes, and all the likes, of a store. *)
Definition total_votes (s : Store) : Z :=
  fold_right Z.add 0 (List.map votes (poll_options s)).

Definition total_likes (s : Store) : Z :=
  fold_right Z.add 0 (List.map likes (polls s)).

(** No two rows of a table share a primary key. *)
Definition keys_unique (s : Store) : Prop :=
  NoDup (List.map poll_pk (polls s))
  ∧ NoDup (List.map option_pk (poll_options s)).

(** Every row of [s] is still found in [s'] under its key with the same
    columns, the counters apart. *)
Definition rows_kept (s s' : Store) : Prop :=
  (∀ pid p, select_poll s pid = Some p ->
            ∃ p', select_poll s' pid = Some p'
                  ∧ question p' = question p
                  ∧ description p' = description p
                  ∧ created_at p' = created_at p)
  ∧ (∀ oid o, get_option s oid = Some o ->
              ∃ o', get_option s' oid = Some o'
                    ∧ text o' = text o ∧ poll_id o' = poll_id o).

(** The first exception among a run of awaited calls. *)
Fixpoint first_raise (xs : list io) : option exn :=
  match xs with
  | [] => None
  | x :: xs' => match raised x with Some e => Some e | None => first_raise xs' end
  end.

(** The same request under another delivery schedule. *)
Definition reschedule (r : Request) (sched : WebSocket -> io) : Request :=
  match r with
  | ReqCreate payload now _ => ReqCreate payload now sched
  | ReqVote poll_id vote _ => ReqVote poll_id vote sched
  | ReqLike poll_id _ => ReqLike poll_id sched
  end.


End Obs.

(* ===================================================================== *)
(** ** Concrete worlds *)
(* ===================================================================== *)

Module Sample.
Import PyStr Models Schemas Runtime Manager Main Obs.

(** Empty database, nobody connected. *)
Definition world0 : World := mkWorld empty_store ∅ [].

Definition quiet : WebSocket -> io := fun _ => io_ok.

(** Connection 3 is dead, every other send succeeds. *)
Definition dead3 : WebSocket -> io :=
  fun c => if (c =? 3)%nat then io_fail RuntimeError else io_ok.

(** While the message goes to connection 3, connection 9 registers. *)
Definition join9 : WebSocket -> io :=
  fun c => if (c =? 3)%nat then mkIO [OpAdd 9%nat] None else io_ok.

Definition tea : PollCreate :=
  mkPollCreate (lit " Tea or coffee? ") None
               [lit "Tea"; lit "  "; lit " Coffee "].

Definition blank_question : PollCreate :=
  mkPollCreate (lit "   ") None [lit "yes"; lit "no"].


(** Connections 3 and 7 are registered. *)
Definition world37 : World :=
  exec_all [DoConnect 3%nat io_ok; DoConnect 7%nat io_ok] world0.

(** [world37] after the poll [tea] has been created: poll 1 with
    options 1 and 2. *)
Definition world_tea : World := snd (create_poll tea 100 quiet world37).


Definition hello : Event := poll_snapshot [].

End Sample.

(* ===================================================================== *)
(** ** The monad, step by step *)
(* ===================================================================== *)

Module Steps.
Import Models Schemas Runtime Manager Main Obs.

Lemma bind_eq {A B} (m : M A) (k : A -> M B) w :
  (m ≫= k) w =
  match m w with
  | (Return a, w') => k a w'
  | (Raise e, w') => (Raise e, w')
  | (Pending, w') => (Pending, w')
  end.
Proof. reflexivity. Qed.

Lemma bind_return {A B} (m : M A) (k : A -> M B) w a w' :
  m w = (Return a, w') -> (m ≫= k) w = k a w'.
Proof. intros H. rewrite bind_eq, H. reflexivity. Qed.

Lemma bind_raise {A B} (m : M A) (k : A -> M B) w e w' :
  m w = (Raise e, w') -> (m ≫= k) w = (Raise e, w').
Proof. intros H. rewrite bind_eq, H. reflexivity. Qed.

Lemma apply_ops_app ops1 ops2 c :
  apply_ops (ops1 ++ ops2) c = apply_ops ops2 (apply_ops ops1 c).
Proof. unfold apply_ops. apply fold_left_app. Qed.

(** One [send_json], whatever its outcome. *)
Lemma send_json_run ws message x w :
  send_json ws message x w =
  (match raised x with None => Return tt | Some e => Raise e end,
   mkWorld (db w) (apply_ops (meanwhile x) (_connections w))
           (trace w ++ List.map Meanwhile (meanwhile x)
                   ++ [SendJson ws message
                         (match raised x with None => true | _ => false end)])).
Proof.
  unfold send_json, bind, others, emit, raise; simpl.
  destruct (raised x); simpl; rewrite <- app_assoc; reflexivity.
Qed.

End Steps.

(* ===================================================================== *)
(** ** The connection manager *)
(* ===================================================================== *)

Module ManagerFacts.
Import Models Schemas Runtime Manager Main Obs Steps.

Lemma failed_cons sched c l :
  failed sched (c :: l) =
  if fails sched c then {[c]} ∪ failed sched l else failed sched l.
Proof. unfold failed; simpl. destruct (fails sched c); reflexivity. Qed.

(** The delivery loop always returns; it returns the connections whose
    send raised, added to the ones it started with. *)
Lemma deliver_spec message sched l : ∀ stale w,
  deliver message sched l stale w =
  (Return (failed sched l ∪ stale), delivered message sched l w).
Proof.
  induction l as [|c l IH]; intros stale w.
  - simpl. unfold mret, M_ret, ret, delivered, failed, during, delivery_trace.
    simpl. rewrite app_nil_r. destruct w; simpl.
    f_equal. f_equal. set_solver.
  - simpl. rewrite bind_eq. unfold try_except.
    rewrite bind_eq, send_json_run.
    rewrite failed_cons. unfold fails.
    destruct (raised (sched c)) as [e|] eqn:He; simpl;
      rewrite IH; unfold delivered, during, delivery_trace; simpl;
      rewrite apply_ops_app; unfold fails at 2; rewrite He; simpl;
      rewrite <- !app_assoc; f_equal; f_equal; set_solver.
Qed.

Lemma discard_all_spec l : ∀ w,
  discard_all l w =
  (Return tt,
   mkWorld (db w) (_connections w ∖ list_to_set l)
           (trace w ++ List.map Discard l)).
Proof.
  induction l as [|c l IH]; intros w.
  - simpl. unfold mret, M_ret, ret. rewrite app_nil_r. destruct w; simpl.
    f_equal. f_equal. set_solver.
  - simpl. rewrite bind_eq. unfold discard at 1. rewrite IH. simpl.
    rewrite <- app_assoc. simpl. f_equal. f_equal. set_solver.
Qed.

(** [broadcast] in closed form: it returns, the database is untouched,
    the connection set is what the other tasks made of it minus the
    connections whose send raised, and the trace grows by the delivery
    loop followed by the removals. *)
Lemma broadcast_spec message sched w :
  let l := elements (_connections w) in
  broadcast message sched w =
  (Return tt,
   mkWorld (db w)
           (apply_ops (during sched l) (_connections w) ∖ failed sched l)
           (trace w ++ delivery_trace message sched l
                    ++ List.map Discard (elements (failed sched l)))).
Proof.
  intros l. unfold broadcast. rewrite bind_eq. unfold snapshot. fold l.
  rewrite bind_eq, deliver_spec.
  replace (failed sched l ∪ ∅) with (failed sched l) by set_solver.
  destruct (decide (failed sched l = ∅)) as [E|NE].
  - unfold mret, M_ret, ret, delivered. rewrite E. simpl.
    rewrite elements_empty. simpl. rewrite app_nil_r.
    f_equal. f_equal. set_solver.
  - rewrite discard_all_spec. unfold delivered; simpl.
    rewrite <- app_assoc. f_equal. f_equal.
    rewrite list_to_set_elements_L. reflexivity.
Qed.

Lemma added_trace_app w w' tr :
  trace w' = trace w ++ tr -> added_trace w w' = tr.
Proof. intros H. unfold added_trace. rewrite H. apply drop_app_length. Qed.

Lemma attempts_app ws message t1 t2 :
  attempts ws message (t1 ++ t2)
  = (attempts ws message t1 + attempts ws message t2)%nat.
Proof. unfold attempts. rewrite List.filter_app, length_app. reflexivity. Qed.

Lemma attempts_meanwhile ws message ops :
  attempts ws message (List.map Meanwhile ops) = O.
Proof. induction ops; simpl; auto. Qed.

Lemma attempts_discards ws message l :
  attempts ws message (List.map Discard l) = O.
Proof. induction l; simpl; auto. Qed.

(** In the delivery loop over a list without repetition, a member gets
    one attempt and a non-member none. *)
Lemma attempts_delivery ws message sched l :
  NoDup l ->
  attempts ws message (delivery_trace message sched l)
  = if decide (ws ∈ l) then 1%nat else 0%nat.
Proof.
  induction 1 as [|c l Hc Hl IH].
  - simpl. destruct (decide (ws ∈ [])) as [H|H]; [inversion H|reflexivity].
  - unfold delivery_trace. simpl. fold (delivery_trace message sched l).
    rewrite !attempts_app, attempts_meanwhile, IH. simpl.
    unfold attempts at 1. simpl.
    destruct (decide (c = ws)) as [->|Hne].
    + rewrite !bool_decide_eq_true_2 by reflexivity. simpl.
      destruct (decide (ws ∈ l)); [contradiction|].
      destruct (decide (ws ∈ ws :: l)) as [|Hn]; [reflexivity|].
      exfalso; apply Hn; constructor.
    + rewrite (bool_decide_eq_false_2 (c = ws)) by assumption. simpl.
      destruct (decide (ws ∈ l)) as [Hi|Hn];
        destruct (decide (ws ∈ c :: l)) as [Hi'|Hn']; try reflexivity.
      * exfalso; apply Hn'; constructor; assumption.
      * exfalso. inversion Hi'; subst; [congruence|contradiction].
Qed.

(** The delivery attempts of one [broadcast] call. *)
Lemma broadcast_attempts message sched w ws :
  attempts ws message (added_trace w (snd (broadcast message sched w)))
  = if decide (ws ∈ _connections w) then 1%nat else 0%nat.
Proof.
  rewrite broadcast_spec. simpl.
  erewrite added_trace_app by reflexivity.
  rewrite attempts_app, attempts_discards, Nat.add_0_r.
  rewrite attempts_delivery by apply NoDup_elements.
  destruct (decide (ws ∈ elements (_connections w))) as [Hi|Hn];
    destruct (decide (ws ∈ _connections w)) as [Hi'|Hn']; try reflexivity.
  - exfalso; apply Hn'; apply elem_of_elements; assumption.
  - exfalso; apply Hn; apply elem_of_elements; assumption.
Qed.

Lemma own_discards_app t1 t2 :
  own_discards (t1 ++ t2) = own_discards t1 ++ own_discards t2.
Proof. unfold own_discards. apply flat_map_app. Qed.

Lemma own_discards_delivery message sched l :
  own_discards (delivery_trace message sched l) = [].
Proof.
  induction l as [|c l IH]; [reflexivity|].
  unfold delivery_trace; simpl. fold (delivery_trace message sched l).
  rewrite !own_discards_app, IH. simpl. rewrite app_nil_r.
  induction (meanwhile (sched c)); simpl; auto.
Qed.

Lemma own_discards_map l : own_discards (List.map Discard l) = l.
Proof. induction l; simpl; congruence. Qed.

Lemma elem_of_failed sched l c :
  c ∈ failed sched l ↔ c ∈ l ∧ fails sched c = true.
Proof.
  unfold failed. rewrite elem_of_list_to_set, list_elem_of_In, List.filter_In.
  rewrite <- list_elem_of_In. reflexivity.
Qed.

End ManagerFacts.

(* ===================================================================== *)
(** ** The store *)
(* ===================================================================== *)

Module StoreFacts.
Import PyStr Models Schemas Obs.

Lemma find_app {A} (f : A -> bool) l1 l2 :
  List.find f (l1 ++ l2) =
  match List.find f l1 with Some x => Some x | None => List.find f l2 end.
Proof.
  induction l1 as [|a l1 IH]; simpl; [reflexivity|].
  destruct (f a); auto.
Qed.

Lemma find_map_pk {A} (pk : A -> Z) (g : A -> A) k l :
  (∀ a, pk (g a) = pk a) ->
  List.find (fun a => pk a =? k) (List.map g l)
  = g <$> List.find (fun a => pk a =? k) l.
Proof.
  intros Hpk. induction l as [|a l IH]; simpl; [reflexivity|].
  rewrite Hpk. destruct (pk a =? k); simpl; auto.
Qed.

Lemma select_poll_pk s pid p : select_poll s pid = Some p -> poll_pk p = pid.
Proof.
  unfold select_poll. intros H. apply List.find_some in H as [_ H]. lia.
Qed.

Lemma get_option_pk s oid o : get_option s oid = Some o -> option_pk o = oid.
Proof.
  unfold get_option. intros H. apply List.find_some in H as [_ H]. lia.
Qed.

(** The next rowid is above every key in use. *)
Lemma next_rowid_above keys k : In k keys -> k < next_rowid keys.
Proof.
  unfold next_rowid. induction keys as [|a keys IH]; simpl; [tauto|].
  intros [->|H]; [lia|]. specialize (IH H). lia.
Qed.

Lemma next_rowid_fresh {A} (pk : A -> Z) (l : list A) :
  List.find (fun a => pk a =? next_rowid (List.map pk l)) l = None.
Proof.
  destruct (List.find _ l) as [a|] eqn:H; [|reflexivity].
  apply List.find_some in H as [Hin Heq].
  pose proof (next_rowid_above (List.map pk l) (pk a) (in_map pk l a Hin)).
  lia.
Qed.

Lemma insert_options_app texts : ∀ tbl pid,
  insert_options tbl pid texts = tbl ++ new_options tbl pid texts.
Proof.
  induction texts as [|t texts IH]; intros tbl pid; simpl.
  - symmetry; apply app_nil_r.
  - rewrite IH, <- app_assoc. reflexivity.
Qed.


Lemma new_options_fresh texts : ∀ tbl pid,
  Forall (fun o => votes o = 0 ∧ poll_id o = pid) (new_options tbl pid texts).
Proof.
  induction texts; intros; simpl; constructor; simpl; auto.
Qed.

Lemma filter_all {A} (f : A -> bool) l :
  Forall (fun a => f a = true) l -> List.filter f l = l.
Proof. induction 1 as [|a l Ha _ IH]; simpl; [|rewrite Ha, IH]; reflexivity. Qed.

Lemma filter_none {A} (f : A -> bool) l :
  Forall (fun a => f a = false) l -> List.filter f l = [].
Proof. induction 1 as [|a l Ha _ IH]; simpl; [|rewrite Ha, IH]; reflexivity. Qed.

(** With referential integrity, no existing option row points to the key
    the next poll gets. *)
Lemma fk_ok_no_option s :
  fk_ok s = true ->
  Forall (fun o => (poll_id o =? next_rowid (List.map poll_pk (polls s))) = false)
         (poll_options s).
Proof.
  unfold fk_ok. intros H. apply Forall_forall. intros o Ho.
  apply list_elem_of_In in Ho.
  rewrite forallb_forall in H. specialize (H o Ho).
  apply existsb_exists in H as (p & Hp & Heq).
  pose proof (next_rowid_above _ _ (in_map poll_pk _ _ Hp)). lia.
Qed.

(** The store after [insert_poll]: the new poll is found under its key,
    and its options are exactly the new rows. *)
Lemma insert_poll_select s q d now texts :
  let '(pid, s') := insert_poll s q d now texts in
  select_poll s pid = None
  ∧ select_poll s' pid = Some (mkPoll pid q d now 0).
Proof.
  unfold insert_poll, select_poll; simpl.
  rewrite find_app, (next_rowid_fresh poll_pk); simpl.
  rewrite Z.eqb_refl. auto.
Qed.

Lemma insert_poll_options s q d now texts :
  fk_ok s = true ->
  let '(pid, s') := insert_poll s q d now texts in
  options_of s' pid = new_options (poll_options s) pid texts.
Proof.
  intros Hfk. unfold insert_poll, options_of; simpl.
  rewrite insert_options_app, List.filter_app.
  rewrite filter_none by (apply fk_ok_no_option; assumption). simpl.
  apply filter_all. eapply Forall_impl; [apply new_options_fresh|].
  simpl. intros o [_ ->]. apply Z.eqb_refl.
Qed.

Example first_rowid : next_rowid [] = 1.
Proof. reflexivity. Qed.

Example insert_two_polls :
  let s1 := snd (insert_poll empty_store (lit "A") None 1 [lit "x"; lit "y"]) in
  let s2 := snd (insert_poll s1 (lit "B") None 2 [lit "u"; lit "v"]) in
  List.map poll_pk (polls s2) = [1; 2]
  ∧ List.map option_pk (poll_options s2) = [1; 2; 3; 4]
  ∧ List.map poll_id (poll_options s2) = [1; 1; 2; 2].
Proof. repeat split. Qed.

(** Rows present before an insertion are still found, unchanged. *)
Lemma insert_poll_keeps_poll s q d now texts pid p :
  select_poll s pid = Some p ->
  select_poll (snd (insert_poll s q d now texts)) pid = Some p.
Proof.
  unfold insert_poll, select_poll; simpl. intros H.
  rewrite find_app, H. reflexivity.
Qed.

Lemma insert_poll_keeps_option s q d now texts oid o :
  get_option s oid = Some o ->
  get_option (snd (insert_poll s q d now texts)) oid = Some o.
Proof.
  unfold insert_poll, get_option; simpl. intros H.
  rewrite insert_options_app, find_app, H. reflexivity.
Qed.

Lemma update_votes_get s oid v k :
  get_option (update_votes s oid v) k =
  (fun o => if option_pk o =? oid
            then mkPollOption (option_pk o) (text o) v (poll_id o) else o)
  <$> get_option s k.
Proof.
  unfold get_option, update_votes; simpl.
  apply find_map_pk. intros a. destruct (option_pk a =? oid); reflexivity.
Qed.

Lemma update_likes_select s pid v k :
  select_poll (update_likes s pid v) k =
  (fun p => if poll_pk p =? pid
            then mkPoll (poll_pk p) (question p) (description p)
                        (created_at p) v else p)
  <$> select_poll s k.
Proof.
  unfold select_poll, update_likes; simpl.
  apply find_map_pk. intros a. destruct (poll_pk a =? pid); reflexivity.
Qed.

End StoreFacts.

(* ===================================================================== *)
(** ** The handlers *)
(* ===================================================================== *)

Module MainFacts.
Import PyStr Models Schemas Runtime Manager Main Obs Steps ManagerFacts.
Import StoreFacts.

(** What a handler that starts with the lookup of a missing poll
    answers: 404 for a 64-bit key, the driver's error for any other. *)
Lemma get_poll_with_options_run pid w :
  get_poll_with_options pid w =
  match select_poll (db w) pid with
  | None =>
      (Raise (if in_int64 pid then HTTPException 404 "Poll not found"
              else OverflowError), w)
  | Some p => (Return (load (db w) p), w)
  end.
Proof.
  unfold get_poll_with_options. rewrite bind_eq. unfold get_db.
  rewrite bind_eq. unfold exec_select_poll.
  destruct (select_poll (db w) pid); [reflexivity|].
  destruct (in_int64 pid); reflexivity.
Qed.

(** [broadcast] returns and leaves the database alone. *)
Lemma broadcast_run message sched w :
  broadcast message sched w = (Return tt, snd (broadcast message sched w)).
Proof. rewrite broadcast_spec. reflexivity. Qed.

Lemma broadcast_db message sched w :
  db (snd (broadcast message sched w)) = db w.
Proof. rewrite broadcast_spec. reflexivity. Qed.

(** A world with another database. *)
Lemma set_db_run s w :
  set_db s w = (Return tt, mkWorld s (_connections w) (trace w)).
Proof. reflexivity. Qed.

(** [vote_on_poll], case by case. *)
Lemma vote_on_poll_run pid vote sched w :
  vote_on_poll pid vote sched w =
  match select_poll (db w) pid with
  | None =>
      (Raise (if in_int64 pid then HTTPException 404 "Poll not found"
              else OverflowError), w)
  | Some p =>
      match get_option (db w) (option_id vote) with
      | None =>
          (Raise (if in_int64 (option_id vote)
                  then HTTPException 400 "Option does not belong to this poll."
                  else OverflowError), w)
      | Some o =>
          if negb (poll_id o =? poll_pk p)
          then (Raise (HTTPException 400 "Option does not belong to this poll."),
                w)
          else
            let s' := update_votes (db w) (option_pk o) (votes o + 1) in
            let pr := serialize_poll (load s' p) in
            (Return pr,
             snd (broadcast (poll_updated pr) sched
                    (mkWorld s' (_connections w) (trace w))))
      end
  end.
Proof.
  unfold vote_on_poll. rewrite bind_eq, get_poll_with_options_run.
  destruct (select_poll (db w) pid) as [p|] eqn:Hp; [|reflexivity].
  rewrite bind_eq. unfold get_db. rewrite bind_eq. unfold session_get.
  cbn [db].
  destruct (get_option (db w) (option_id vote)) as [o|];
    [|destruct (in_int64 (option_id vote)); reflexivity].
  cbn [mret M_ret ret]. cbn [load row].
  destruct (negb (poll_id o =? poll_pk p)); [reflexivity|].
  rewrite bind_eq, set_db_run, bind_eq, get_poll_with_options_run.
  simpl. unfold select_poll in *. simpl. rewrite Hp.
  rewrite bind_eq, broadcast_run. reflexivity.
Qed.

(** [like_poll], case by case. *)
Lemma like_poll_run pid sched w :
  like_poll pid sched w =
  match select_poll (db w) pid with
  | None =>
      (Raise (if in_int64 pid then HTTPException 404 "Poll not found"
              else OverflowError), w)
  | Some p =>
      let s' := update_likes (db w) (poll_pk p) (likes p + 1) in
      let p' := mkPoll (poll_pk p) (question p) (description p)
                       (created_at p) (likes p + 1) in
      let pr := serialize_poll (load s' p') in
      (Return pr,
       snd (broadcast (poll_updated pr) sched
              (mkWorld s' (_connections w) (trace w))))
  end.
Proof.
  unfold like_poll. rewrite bind_eq, get_poll_with_options_run.
  destruct (select_poll (db w) pid) as [p|] eqn:Hp; [|reflexivity].
  rewrite bind_eq. unfold get_db. simpl.
  rewrite bind_eq, set_db_run, bind_eq, get_poll_with_options_run.
  simpl db. rewrite update_likes_select, Hp. simpl.
  rewrite (select_poll_pk _ _ _ Hp), Z.eqb_refl.
  rewrite bind_eq, broadcast_run. reflexivity.
Qed.

(** [create_poll], case by case. *)
Lemma create_poll_run payload now sched w :
  create_poll payload now sched w =
  let options := clean_options (pc_options payload) in
  if (length options <? 2)%nat
  then (Raise (HTTPException 400 "A poll requires at least two options."), w)
  else
    let '(pid, s') :=
      insert_poll (db w) (strip (pc_question payload))
                  (pc_description payload) now options in
    let p := mkPoll pid (strip (pc_question payload))
                    (pc_description payload) now 0 in
    let pr := serialize_poll (load s' p) in
    (Return pr,
     snd (broadcast (poll_created pr) sched
            (mkWorld s' (_connections w) (trace w)))).
Proof.
  unfold create_poll. cbv zeta.
  destruct (length (clean_options (pc_options payload)) <? 2)%nat;
    [reflexivity|].
  rewrite bind_eq. unfold get_db.
  pose proof (insert_poll_select (db w) (strip (pc_question payload))
                (pc_description payload) now
                (clean_options (pc_options payload))) as Hsel.
  destruct (insert_poll _ _ _ _ _) as [pid s'] eqn:Hins.
  destruct Hsel as [_ Hsel].
  rewrite bind_eq, set_db_run, bind_eq, get_poll_with_options_run.
  simpl db. rewrite Hsel.
  rewrite bind_eq, broadcast_run. reflexivity.
Qed.

End MainFacts.

(* ===================================================================== *)
(** ** [str.strip] *)
(* ===================================================================== *)

Module StripFacts.
Import PyStr.

Lemma lstrip_split s :
  ∃ pre, s = pre ++ lstrip s ∧ Forall (fun c => isspace c = true) pre.
Proof.
  induction s as [|c s (pre & Hs & Hpre)]; simpl.
  - exists []. split; [reflexivity|constructor].
  - destruct (isspace c) eqn:Hc.
    + exists (c :: pre). split; [simpl; congruence|constructor; assumption].
    + exists []. split; [reflexivity|constructor].
Qed.

Lemma lstrip_start s : starts_with_space (lstrip s) = false.
Proof.
  induction s as [|c s IH]; simpl; [reflexivity|].
  destruct (isspace c) eqn:Hc; [assumption|simpl; assumption].
Qed.

Lemma rstrip_split s :
  ∃ post, s = rstrip s ++ post ∧ Forall (fun c => isspace c = true) post.
Proof.
  unfold rstrip. destruct (lstrip_split (rev s)) as (pre & Hs & Hpre).
  exists (rev pre). split.
  - rewrite <- rev_app_distr, <- Hs, rev_involutive. reflexivity.
  - apply Forall_forall. intros c Hc. apply list_elem_of_In in Hc.
    apply in_rev in Hc. rewrite Forall_forall in Hpre.
    apply Hpre. apply list_elem_of_In. assumption.
Qed.

Lemma rstrip_end s : ends_with_space (rstrip s) = false.
Proof.
  unfold ends_with_space, rstrip. rewrite rev_involutive. apply lstrip_start.
Qed.

Lemma rstrip_start s :
  starts_with_space s = false -> starts_with_space (rstrip s) = false.
Proof.
  intros Hs. destruct (rstrip_split s) as (post & Heq & Hpost).
  destruct (rstrip s) as [|c r]; [reflexivity|].
  rewrite Heq in Hs. exact Hs.
Qed.

Example strip_tea : strip (lit "  Tea or coffee? ") = lit "Tea or coffee?".
Proof. reflexivity. Qed.

Example strip_blank : strip (lit "   ") = [].
Proof. reflexivity. Qed.

Example strip_inner : strip (lit " a b ") = lit "a b".
Proof. reflexivity. Qed.

(** A stripped text has no whitespace at either end. *)
Lemma strip_trimmed s : trimmed (strip s) = true.
Proof.
  unfold trimmed, strip.
  rewrite rstrip_end, (rstrip_start _ (lstrip_start s)). reflexivity.
Qed.

End StripFacts.

(* ===================================================================== *)
(** * Properties of the system *)
(* ===================================================================== *)

Import PyStr Models Schemas Runtime Manager Main Obs Sample.
Import Steps ManagerFacts StoreFacts MainFacts StripFacts.

(** ** The Broadcast Registry *)

(** C2. Take the registry in the state [w] that any run [history] of
    connects, disconnects and broadcasts has left, and one more
    [broadcast] call, with any registry operations of other tasks
    interleaved at its sends. A connection that is in the live set when
    the call takes its snapshot (so in particular one that is live for the
    whole call) gets exactly one delivery attempt of the message; one that
    is not in the live set at that moment gets none, and that is the case
    of a connection whose [disconnect] came just before the call. *)
Theorem broadcast_one_attempt_per_live_observer
    (history : list Command) (w0 : World)
    (message : Event) (sched : WebSocket -> io) (ws : WebSocket) :
  let w := exec_all history w0 in
  let gone := snd (disconnect ws w) in
  (ws ∈ _connections w ->
   attempts ws message (added_trace w (snd (broadcast message sched w)))
   = 1%nat)
  ∧ (ws ∉ _connections w ->
     attempts ws message (added_trace w (snd (broadcast message sched w)))
     = 0%nat)
  ∧ attempts ws message
      (added_trace gone (snd (broadcast message sched gone))) = 0%nat.
Proof.
  intros w gone. repeat split.
  - intros Hin. rewrite broadcast_attempts.
    destruct (decide (ws ∈ _connections w)); [reflexivity|contradiction].
  - intros Hout. rewrite broadcast_attempts.
    destruct (decide (ws ∈ _connections w)); [contradiction|reflexivity].
  - rewrite broadcast_attempts.
    destruct (decide (ws ∈ _connections gone)) as [Hin|]; [|reflexivity].
    exfalso. unfold gone, disconnect, discard in Hin. simpl in Hin.
    set_solver.
Qed.

Lemma broadcast_one_attempt_per_live_observer_witness :
  (7%nat ∈ _connections world37
   ∧ attempts 7%nat hello
       (added_trace world37 (snd (broadcast hello dead3 world37))) = 1%nat)
  ∧ ((9%nat ∉ _connections world37)
     ∧ attempts 9%nat hello
         (added_trace world37 (snd (broadcast hello join9 world37))) = 0%nat).
Proof.
  assert (H7 : 7%nat ∈ _connections world37) by (vm_compute; reflexivity).
  assert (H9 : 9%nat ∉ _connections world37) by (vm_compute; set_solver).
  split; split.
  - exact H7.
  - exact (proj1 (broadcast_one_attempt_per_live_observer
                    [DoConnect 3%nat io_ok; DoConnect 7%nat io_ok] world0
                    hello dead3 7%nat) H7).
  - exact H9.
  - exact (proj1 (proj2 (broadcast_one_attempt_per_live_observer
                    [DoConnect 3%nat io_ok; DoConnect 7%nat io_ok] world0
                    hello join9 9%nat)) H9).
Defined.

(** C5. In a [broadcast] call the set [stale] the delivery loop builds is
    the set of connections whose send raised; the call returns normally
    whatever the sends do; and in the world it leaves no connection whose
    send raised is in the live set. *)
Theorem broadcast_contains_delivery_failures
    (message : Event) (sched : WebSocket -> io) (w : World) :
  let l := elements (_connections w) in
  let w' := snd (broadcast message sched w) in
  fst (deliver message sched l ∅ w) = Return (failed sched l)
  ∧ (∀ c, c ∈ failed sched l ↔ (c ∈ _connections w ∧ fails sched c = true))
  ∧ fst (broadcast message sched w) = Return tt
  ∧ (∀ c, c ∈ _connections w -> fails sched c = true ->
          c ∉ _connections w').
Proof.
  intros l w'.
  assert (Hfailed : ∀ c, c ∈ failed sched l
                         ↔ (c ∈ _connections w ∧ fails sched c = true)).
  { intros c. rewrite elem_of_failed. unfold l. rewrite elem_of_elements.
    reflexivity. }
  split; [|split; [exact Hfailed|split]].
  - rewrite deliver_spec. simpl. f_equal. set_solver.
  - rewrite broadcast_spec. reflexivity.
  - intros c Hc Hf. unfold w'. rewrite broadcast_spec. simpl.
    assert (c ∈ failed sched l).
    { apply elem_of_failed. split; [apply elem_of_elements|]; assumption. }
    set_solver.
Qed.

Lemma broadcast_contains_delivery_failures_witness :
  3%nat ∈ _connections world37
  ∧ fails dead3 3%nat = true
  ∧ 3%nat ∉ _connections (snd (broadcast hello dead3 world37)).
Proof.
  assert (H3 : 3%nat ∈ _connections world37) by (vm_compute; reflexivity).
  split; [exact H3|split; [reflexivity|]].
  exact (proj2 (proj2 (proj2
           (broadcast_contains_delivery_failures hello dead3 world37)))
           3%nat H3 eq_refl).
Defined.

(** C10. What a [broadcast] call does to the live set: the set it leaves
    is the set the other tasks alone have made of it during the call,
    minus the connections whose own send raised in this call; the
    removals the call itself performs are exactly those connections. So
    a connection that was not in the call's snapshot (one that registers
    while the delivery loop runs) and a connection whose send succeeded
    are in the live set after the call exactly when the other tasks left
    them there. *)
Theorem broadcast_removes_only_failed
    (message : Event) (sched : WebSocket -> io) (w : World) :
  let l := elements (_connections w) in
  let w' := snd (broadcast message sched w) in
  let elsewhere := apply_ops (during sched l) (_connections w) in
  _connections w' = elsewhere ∖ failed sched l
  ∧ own_discards (added_trace w w') = elements (failed sched l)
  ∧ (∀ ws, ws ∉ _connections w ->
           (ws ∈ _connections w' ↔ ws ∈ elsewhere))
  ∧ (∀ ws, fails sched ws = false ->
           (ws ∈ _connections w' ↔ ws ∈ elsewhere)).
Proof.
  intros l w' elsewhere.
  assert (Hc : _connections w' = elsewhere ∖ failed sched l).
  { unfold w'. rewrite broadcast_spec. reflexivity. }
  split; [exact Hc|]. split.
  - unfold w'. rewrite broadcast_spec. simpl.
    erewrite added_trace_app by reflexivity.
    rewrite own_discards_app, own_discards_delivery, own_discards_map.
    reflexivity.
  - split; intros ws Hws; rewrite Hc.
    + assert (ws ∉ failed sched l).
      { rewrite elem_of_failed. intros [Hin _].
        apply Hws. apply elem_of_elements. exact Hin. }
      set_solver.
    + assert (ws ∉ failed sched l).
      { rewrite elem_of_failed. intros [_ Hf]. congruence. }
      set_solver.
Qed.

Lemma broadcast_removes_only_failed_witness :
  ((9%nat ∉ _connections world37)
   ∧ 9%nat ∈ _connections (snd (broadcast hello join9 world37)))
  ∧ (fails dead3 7%nat = false
     ∧ 7%nat ∈ _connections (snd (broadcast hello dead3 world37))).
Proof.
  assert (H9 : 9%nat ∉ _connections world37) by (vm_compute; set_solver).
  split; split.
  - exact H9.
  - apply (proj1 (proj2 (proj2
             (broadcast_removes_only_failed hello join9 world37))) 9%nat H9).
    vm_compute. reflexivity.
  - reflexivity.
  - apply (proj2 (proj2 (proj2
             (broadcast_removes_only_failed hello dead3 world37)))
             7%nat eq_refl).
    vm_compute. reflexivity.
Defined.

(** Positions in a trace. *)
Lemma index_of_none f tr :
  Forall (fun a => f a = false) tr -> index_of f tr = None.
Proof.
  induction 1 as [|a tr Ha _ IH]; simpl; [reflexivity|].
  rewrite Ha, IH. reflexivity.
Qed.


Lemma index_of_here f a tr : f a = true -> index_of f (a :: tr) = Some O.
Proof. intros H. simpl. rewrite H. reflexivity. Qed.

(** [connect] in closed form: the handshake decides. *)
Lemma connect_run ws x w :
  connect ws x w =
  match raised x with
  | Some e =>
      (Raise e,
       mkWorld (db w) (apply_ops (meanwhile x) (_connections w))
               (trace w ++ List.map Meanwhile (meanwhile x)))
  | None =>
      (Return tt,
       mkWorld (db w) ({[ws]} ∪ apply_ops (meanwhile x) (_connections w))
               (trace w ++ List.map Meanwhile (meanwhile x)
                        ++ [Accept ws; Add ws]))
  end.
Proof.
  unfold connect. rewrite bind_eq. unfold accept, bind, others, emit, raise, add.
  simpl. destruct (raised x); simpl; [reflexivity|].
  rewrite <- !app_assoc. reflexivity.
Qed.

(** C4, as stated, fails: [connect] performs the handshake itself, and
    when [websocket.accept()] raises, [connect] raises and registers
    nothing. *)
Lemma connect_can_fail :
  connect 0%nat (io_fail WebSocketDisconnect) world0
  = (Raise WebSocketDisconnect, world0)
  ∧ ¬ (∃ w', connect 0%nat (io_fail WebSocketDisconnect) world0
             = (Return tt, w')).
Proof.
  split; [reflexivity|]. intros [w' H]. discriminate H.
Qed.

(** C4, amended. [connect] first performs the transport handshake
    ([websocket.accept()]) itself. If the handshake raises, [connect]
    raises the same exception and the connection is not registered by it;
    if the handshake returns, [connect] adds the connection to the live
    set and returns. The registration step alone, [add], always
    returns. *)
Theorem connect_fails_only_by_handshake (ws : WebSocket) (x : io) (w : World) :
  let elsewhere := apply_ops (meanwhile x) (_connections w) in
  match raised x with
  | Some e =>
      fst (connect ws x w) = Raise e
      ∧ _connections (snd (connect ws x w)) = elsewhere
      ∧ index_of (is_add ws) (added_trace w (snd (connect ws x w))) = None
  | None =>
      fst (connect ws x w) = Return tt
      ∧ _connections (snd (connect ws x w)) = {[ws]} ∪ elsewhere
      ∧ ws ∈ _connections (snd (connect ws x w))
  end
  ∧ add ws w = (Return tt,
                mkWorld (db w) ({[ws]} ∪ _connections w)
                        (trace w ++ [Add ws])).
Proof.
  intros elsewhere. split; [|reflexivity].
  rewrite connect_run. destruct (raised x) as [e|]; simpl.
  - repeat split.
    erewrite added_trace_app by reflexivity.
    apply index_of_none, Forall_forall. intros a Ha.
    apply list_elem_of_In, in_map_iff in Ha as (op & <- & _). reflexivity.
  - repeat split. set_solver.
Qed.

(** ** The WebSocket endpoint *)

(** The payload of the snapshot built from a database. *)
Lemma list_polls_run w :
  list_polls w =
  (Return (List.map (fun poll => serialize_poll (load (db w) poll))
                    (select_polls_desc (db w))), w).
Proof. reflexivity. Qed.





(** A connection that another task unregisters while its snapshot is
    being sent is not tried by the next broadcast. *)
Example unregistered_during_the_snapshot :
  let w' := snd (websocket_endpoint 5%nat io_ok (mkIO [OpDiscard 5%nat] None)
                   [] world37) in
  attempts 5%nat hello (added_trace w' (snd (broadcast hello quiet w')))
  = 0%nat.
Proof. vm_compute. reflexivity. Qed.


(** ** Voting *)




(** C7. A vote that succeeds on option X of poll P: X existed and belonged
    to P; afterwards X is found with one more vote and is otherwise the
    same row; every option found under another key, of any poll, is the
    same row as before; row by row, the option table differs only in the
    votes of the rows whose key is X; and the poll table, so every
    [likes], is unchanged. *)
Theorem vote_increments_exactly_one_counter
    (pid : Z) (vote : VoteRequest) (sched : WebSocket -> io) (w : World)
    (pr : PollRead) :
  fst (vote_on_poll pid vote sched w) = Return pr ->
  let s := db w in
  let s' := db (snd (vote_on_poll pid vote sched w)) in
  let bump o := mkPollOption (option_pk o) (text o) (votes o + 1) (poll_id o) in
  ∃ o, get_option s (option_id vote) = Some o
       ∧ poll_id o = pid
       ∧ get_option s' (option_id vote) = Some (bump o)
       ∧ (∀ oid, oid <> option_id vote -> get_option s' oid = get_option s oid)
       ∧ Forall2 (fun a b => if option_pk a =? option_id vote
                             then b = mkPollOption (option_pk a) (text a)
                                                   (votes o + 1) (poll_id a)
                             else b = a)
                 (poll_options s) (poll_options s')
       ∧ polls s' = polls s.
Proof.
  intros Hret s s' bump. subst s s'. revert Hret. rewrite vote_on_poll_run.
  destruct (select_poll (db w) pid) as [p|] eqn:Hp; [|discriminate].
  pose proof (select_poll_pk _ _ _ Hp) as Hpk.
  destruct (get_option (db w) (option_id vote)) as [o|] eqn:Ho; [|discriminate].
  pose proof (get_option_pk _ _ _ Ho) as Hok.
  destruct (negb (poll_id o =? poll_pk p)) eqn:Hne; [discriminate|].
  apply negb_false_iff, Z.eqb_eq in Hne.
  intros _. cbn zeta. cbn [snd]. rewrite broadcast_db. cbn [db].
  exists o. split; [reflexivity|]. split; [congruence|]. split; [|split; [|split]].
  - rewrite update_votes_get, Ho. simpl.
    rewrite Z.eqb_refl. reflexivity.
  - intros oid Hoid. rewrite update_votes_get.
    destruct (get_option (db w) oid) as [o'|] eqn:Ho'; [|reflexivity]. simpl.
    pose proof (get_option_pk _ _ _ Ho') as Hpk'.
    destruct (option_pk o' =? option_pk o) eqn:E;
      [apply Z.eqb_eq in E; congruence|reflexivity].
  - unfold update_votes. cbn [poll_options]. rewrite Hok.
    induction (poll_options (db w)) as [|a l IH]; simpl; constructor;
      [|exact IH].
    destruct (option_pk a =? option_id vote) eqn:E; reflexivity.
  - reflexivity.
Qed.

Lemma vote_increments_exactly_one_counter_witness :
  ∃ pr o,
    fst (vote_on_poll 1 (mkVoteRequest 2) dead3 world_tea) = Return pr
    ∧ get_option (db world_tea) 2 = Some o
    ∧ get_option (db (snd (vote_on_poll 1 (mkVoteRequest 2) dead3 world_tea))) 2
      = Some (mkPollOption (option_pk o) (text o) (votes o + 1) (poll_id o)).
Proof.
  assert (H : ∃ pr, fst (vote_on_poll 1 (mkVoteRequest 2) dead3 world_tea)
                    = Return pr) by (eexists; vm_compute; reflexivity).
  destruct H as [pr H].
  destruct (vote_increments_exactly_one_counter
              1 (mkVoteRequest 2) dead3 world_tea pr H)
    as (o & Ho & _ & Ho' & _).
  exists pr, o. split; [exact H|]. split; [exact Ho|exact Ho'].
Defined.

(** ** Liking, and the counters over time *)

Lemma counters_le_refl s : counters_le s s.
Proof. split; intros k x H; exists x; (split; [exact H|lia]). Qed.

Lemma counters_le_trans s1 s2 s3 :
  counters_le s1 s2 -> counters_le s2 s3 -> counters_le s1 s3.
Proof.
  intros [P12 O12] [P23 O23]. split.
  - intros pid p H. destruct (P12 _ _ H) as (p2 & H2 & L2).
    destruct (P23 _ _ H2) as (p3 & H3 & L3). exists p3. split; [exact H3|lia].
  - intros oid o H. destruct (O12 _ _ H) as (o2 & H2 & L2).
    destruct (O23 _ _ H2) as (o3 & H3 & L3). exists o3. split; [exact H3|lia].
Qed.

Lemma update_votes_le s oid v :
  (∀ o, get_option s oid = Some o -> votes o <= v) ->
  counters_le s (update_votes s oid v).
Proof.
  intros Hv. split.
  - intros pid p H. exists p. split; [exact H|lia].
  - intros k o H. rewrite update_votes_get, H. simpl.
    destruct (option_pk o =? oid) eqn:E.
    + eexists. split; [reflexivity|]. simpl. apply Hv.
      apply Z.eqb_eq in E. pose proof (get_option_pk _ _ _ H). congruence.
    + exists o. split; [reflexivity|lia].
Qed.

Lemma update_likes_le s pid v :
  (∀ p, select_poll s pid = Some p -> likes p <= v) ->
  counters_le s (update_likes s pid v).
Proof.
  intros Hv. split.
  - intros k p H. rewrite update_likes_select, H. simpl.
    destruct (poll_pk p =? pid) eqn:E.
    + eexists. split; [reflexivity|]. simpl. apply Hv.
      apply Z.eqb_eq in E. pose proof (select_poll_pk _ _ _ H). congruence.
    + exists p. split; [reflexivity|lia].
  - intros oid o H. exists o. split; [exact H|lia].
Qed.

Lemma insert_poll_le s q d now texts :
  counters_le s (snd (insert_poll s q d now texts)).
Proof.
  split.
  - intros pid p H. exists p. split; [|lia].
    apply insert_poll_keeps_poll. exact H.
  - intros oid o H. exists o. split; [|lia].
    apply insert_poll_keeps_option. exact H.
Qed.

(** One request never lowers a counter, whether it succeeds or fails. *)
Lemma handle_counters_le r w : counters_le (db w) (db (snd (handle r w))).
Proof.
  destruct r as [payload now sched|pid vote sched|pid sched]; simpl.
  - rewrite create_poll_run. cbn zeta.
    destruct (length (clean_options (pc_options payload)) <? 2)%nat;
      [apply counters_le_refl|].
    pose proof (insert_poll_le (db w) (strip (pc_question payload))
                  (pc_description payload) now
                  (clean_options (pc_options payload))) as Hle.
    destruct (insert_poll _ _ _ _ _) as [pid s'].
    cbn [snd]. rewrite broadcast_db. exact Hle.
  - rewrite vote_on_poll_run.
    destruct (select_poll (db w) pid) as [p|]; [|apply counters_le_refl].
    destruct (get_option (db w) (option_id vote)) as [o|] eqn:Ho;
      [|apply counters_le_refl].
    destruct (negb (poll_id o =? poll_pk p)); [apply counters_le_refl|].
    cbn zeta. cbn [snd]. rewrite broadcast_db. cbn [db].
    apply update_votes_le. intros o' Ho'.
    rewrite <- (get_option_pk _ _ _ Ho) in Ho at 1.
    rewrite Ho in Ho'. injection Ho' as <-. lia.
  - rewrite like_poll_run.
    destruct (select_poll (db w) pid) as [p|] eqn:Hp; [|apply counters_le_refl].
    cbn zeta. cbn [snd]. rewrite broadcast_db. cbn [db].
    apply update_likes_le. intros p' Hp'.
    rewrite (select_poll_pk _ _ _ Hp) in Hp'.
    rewrite Hp in Hp'. injection Hp' as <-. lia.
Qed.

Lemma serve_counters_le rs : ∀ w, counters_le (db w) (db (serve rs w)).
Proof.
  induction rs as [|r rs IH]; intros w; simpl.
  - apply counters_le_refl.
  - eapply counters_le_trans; [apply handle_counters_le|apply IH].
Qed.

(** C8. A like that succeeds on poll P: P existed; afterwards P is found
    with one more like and is otherwise the same row, and the response
    shows that count; every poll found under another key is the same row
    as before; the option table, so every [votes], is unchanged. And over
    any run of create, vote and like requests, successful or not, every
    poll and option that was in the store is still there with at least
    the likes or votes it had. *)
Theorem like_increments_and_counters_never_decrease
    (pid : Z) (sched : WebSocket -> io) (w : World) (pr : PollRead)
    (rs : list Request) :
  (fst (like_poll pid sched w) = Return pr ->
   let s := db w in
   let s' := db (snd (like_poll pid sched w)) in
   ∃ p, select_poll s pid = Some p
        ∧ select_poll s' pid
          = Some (mkPoll (poll_pk p) (question p) (description p)
                         (created_at p) (likes p + 1))
        ∧ pr_likes pr = likes p + 1
        ∧ (∀ k, k <> pid -> select_poll s' k = select_poll s k)
        ∧ poll_options s' = poll_options s)
  ∧ counters_le (db w) (db (serve rs w)).
Proof.
  split; [|apply serve_counters_le].
  intros Hret s s'. subst s s'. revert Hret. rewrite like_poll_run.
  destruct (select_poll (db w) pid) as [p|] eqn:Hp; [|discriminate].
  pose proof (select_poll_pk _ _ _ Hp) as Hpk.
  cbn zeta. cbn [fst snd]. intros [= <-]. rewrite broadcast_db. cbn [db].
  exists p. split; [reflexivity|]. split; [|split; [|split]].
  - rewrite update_likes_select, Hp. simpl. rewrite Z.eqb_refl. reflexivity.
  - reflexivity.
  - intros k Hk. rewrite update_likes_select.
    destruct (select_poll (db w) k) as [p'|] eqn:Hp'; [|reflexivity]. simpl.
    pose proof (select_poll_pk _ _ _ Hp') as Hpk'.
    destruct (poll_pk p' =? poll_pk p) eqn:E;
      [apply Z.eqb_eq in E; congruence|reflexivity].
  - reflexivity.
Qed.

Lemma like_increments_and_counters_never_decrease_witness :
  ∃ pr p,
    fst (like_poll 1 dead3 world_tea) = Return pr
    ∧ select_poll (db world_tea) 1 = Some p
    ∧ pr_likes pr = likes p + 1.
Proof.
  assert (H : ∃ pr, fst (like_poll 1 dead3 world_tea) = Return pr)
    by (eexists; vm_compute; reflexivity).
  destruct H as [pr H].
  destruct (proj1 (like_increments_and_counters_never_decrease
                     1 dead3 world_tea pr []) H)
    as (p & Hp & _ & Hl & _).
  exists pr, p. split; [exact H|]. split; [exact Hp|exact Hl].
Defined.

(** Create, vote, like, as connection 7 sees them. *)
Example tea_or_coffee :
  let w := serve [ReqCreate tea 100 quiet;
                  ReqVote 1 (mkVoteRequest 1) quiet;
                  ReqLike 1 quiet] world37 in
  List.map digest (delivered_to 7%nat (added_trace world37 w))
  = [("poll_created"%string, [(0, [0; 0])]);
     ("poll_updated"%string, [(0, [1; 0])]);
     ("poll_updated"%string, [(1, [1; 0])])].
Proof. vm_compute. reflexivity. Qed.

(** ** Referential integrity is kept *)

Lemma fk_ok_spec s :
  fk_ok s = true
  ↔ ∀ o, In o (poll_options s) -> ∃ p, In p (polls s) ∧ poll_pk p = poll_id o.
Proof.
  unfold fk_ok. rewrite forallb_forall. split; intros H o Ho.
  - apply H, existsb_exists in Ho as (p & Hp & E).
    exists p. split; [exact Hp|lia].
  - apply existsb_exists. destruct (H o Ho) as (p & Hp & E).
    exists p. split; [exact Hp|lia].
Qed.

Lemma fk_ok_update_votes s oid v :
  fk_ok s = true -> fk_ok (update_votes s oid v) = true.
Proof.
  rewrite !fk_ok_spec. intros H o Ho. simpl in *.
  apply in_map_iff in Ho as (o' & <- & Ho').
  destruct (H o' Ho') as (p & Hp & E). exists p. split; [exact Hp|].
  destruct (option_pk o' =? oid); exact E.
Qed.

Lemma fk_ok_update_likes s pid v :
  fk_ok s = true -> fk_ok (update_likes s pid v) = true.
Proof.
  rewrite !fk_ok_spec. intros H o Ho. simpl in *.
  destruct (H o Ho) as (p & Hp & E).
  eexists. split; [apply in_map_iff; exists p; split; [reflexivity|exact Hp]|].
  destruct (poll_pk p =? pid); exact E.
Qed.

Lemma fk_ok_insert_poll s q d now texts :
  fk_ok s = true -> fk_ok (snd (insert_poll s q d now texts)) = true.
Proof.
  rewrite !fk_ok_spec. intros H o Ho. simpl in *.
  rewrite insert_options_app in Ho. apply in_app_iff in Ho as [Ho|Ho].
  - destruct (H o Ho) as (p & Hp & E). exists p.
    split; [apply in_app_iff; left; exact Hp|exact E].
  - pose proof (new_options_fresh texts (poll_options s)
                  (next_rowid (List.map poll_pk (polls s)))) as Hf.
    rewrite Forall_forall in Hf. apply list_elem_of_In in Ho.
    destruct (Hf _ Ho) as [_ Hpid].
    eexists. split; [apply in_app_iff; right; left; reflexivity|].
    simpl. congruence.
Qed.

(** Every store the requests can reach from the empty database has
    referential integrity. *)
Lemma serve_fk_ok rs : ∀ w, fk_ok (db w) = true -> fk_ok (db (serve rs w)) = true.
Proof.
  induction rs as [|r rs IH]; intros w Hw; simpl; [exact Hw|].
  apply IH.
  destruct r as [payload now sched|pid vote sched|pid sched]; simpl.
  - rewrite create_poll_run. cbn zeta.
    destruct (length (clean_options (pc_options payload)) <? 2)%nat;
      [exact Hw|].
    pose proof (fk_ok_insert_poll (db w) (strip (pc_question payload))
                  (pc_description payload) now
                  (clean_options (pc_options payload)) Hw) as Hfk.
    destruct (insert_poll _ _ _ _ _) as [pid s'].
    cbn [snd]. rewrite broadcast_db. exact Hfk.
  - rewrite vote_on_poll_run.
    destruct (select_poll (db w) pid) as [p|]; [|exact Hw].
    destruct (get_option (db w) (option_id vote)) as [o|]; [|exact Hw].
    destruct (negb (poll_id o =? poll_pk p)); [exact Hw|].
    cbn zeta. cbn [snd]. rewrite broadcast_db. cbn [db].
    apply fk_ok_update_votes. exact Hw.
  - rewrite like_poll_run.
    destruct (select_poll (db w) pid) as [p|]; [|exact Hw].
    cbn zeta. cbn [snd]. rewrite broadcast_db. cbn [db].
    apply fk_ok_update_likes. exact Hw.
Qed.

Lemma empty_store_fk_ok : fk_ok empty_store = true.
Proof. reflexivity. Qed.

(** ** Creating a poll *)

(** The option texts [create_poll] keeps are non-empty and trimmed. *)
Lemma clean_options_clean opts :
  Forall (fun t => truthy t = true ∧ trimmed t = true) (clean_options opts).
Proof.
  unfold clean_options. induction opts as [|o opts IH]; simpl; [constructor|].
  destruct (truthy (strip o)) eqn:Ho; [|exact IH].
  simpl. constructor; [|exact IH]. split; [exact Ho|apply strip_trimmed].
Qed.


Lemma lstrip_blank s : lstrip s = [] ↔ blank s = true.
Proof.
  unfold blank. induction s as [|c s IH]; simpl; [tauto|].
  destruct (isspace c); simpl; [exact IH|]. split; discriminate.
Qed.

Lemma blank_rev s : blank (rev s) = blank s.
Proof.
  unfold blank. apply eq_true_iff_eq. rewrite !forallb_forall.
  split; intros H c Hc; apply H; [apply in_rev in Hc|apply in_rev]; exact Hc.
Qed.








(** C9, as stated, fails: a question made of whitespace only is accepted
    and stored as the empty string. *)
Lemma blank_question_is_stored_empty :
  (∃ pr, fst (create_poll blank_question 5 quiet world0) = Return pr
         ∧ pr_question pr = [])
  ∧ question <$> select_poll
                   (db (snd (create_poll blank_question 5 quiet world0))) 1
    = Some [].
Proof.
  split; [eexists; split|]; vm_compute; reflexivity.
Qed.

(** C9, amended. For every successful [create_poll], the question in the
    response and in the stored row is the submitted question trimmed: it
    has no leading and no trailing whitespace. It may be empty. *)
Theorem created_question_is_trimmed
    (payload : PollCreate) (now : Z) (sched : WebSocket -> io) (w : World)
    (pr : PollRead) :
  fst (create_poll payload now sched w) = Return pr ->
  pr_question pr = strip (pc_question payload)
  ∧ question <$> select_poll (db (snd (create_poll payload now sched w)))
                             (pr_id pr)
    = Some (strip (pc_question payload))
  ∧ trimmed (strip (pc_question payload)) = true.
Proof.
  rewrite create_poll_run. cbn zeta.
  destruct (length (clean_options (pc_options payload)) <? 2)%nat;
    [discriminate|].
  pose proof (insert_poll_select (db w) (strip (pc_question payload))
                (pc_description payload) now
                (clean_options (pc_options payload))) as Hsel.
  destruct (insert_poll _ _ _ _ _) as [pid s'].
  destruct Hsel as [_ Hsome].
  cbn [fst snd]. intros [= <-]. rewrite broadcast_db. cbn [db].
  split; [reflexivity|]. split; [|apply strip_trimmed].
  simpl. rewrite Hsome. reflexivity.
Qed.

Lemma created_question_is_trimmed_witness :
  ∃ pr, fst (create_poll tea 100 quiet world37) = Return pr
        ∧ pr_question pr = lit "Tea or coffee?".
Proof.
  assert (H : ∃ pr, fst (create_poll tea 100 quiet world37) = Return pr)
    by (eexists; vm_compute; reflexivity).
  destruct H as [pr H]. exists pr. split; [exact H|].
  rewrite (proj1 (created_question_is_trimmed tea 100 quiet world37 pr H)).
  reflexivity.
Defined.

(* ===================================================================== *)
(** * Further properties *)
(* ===================================================================== *)

(** ** The registry: disconnect, empty and repeated broadcasts *)

(** X1. [disconnect] returns in every case and leaves the database alone.
    A second [disconnect] of the same connection changes the live set no
    further, and the [disconnect] of a connection that is not registered
    leaves the live set as it was. *)
Theorem disconnect_is_idempotent (ws : WebSocket) (w : World) :
  let w1 := snd (disconnect ws w) in
  fst (disconnect ws w) = Return tt
  ∧ db w1 = db w
  ∧ (ws ∉ _connections w1)
  ∧ fst (disconnect ws w1) = Return tt
  ∧ _connections (snd (disconnect ws w1)) = _connections w1
  ∧ (ws ∉ _connections w -> _connections w1 = _connections w).
Proof.
  unfold disconnect, discard; simpl.
  repeat split; try set_solver.
Qed.

Lemma disconnect_is_idempotent_witness :
  (9%nat ∉ _connections world37)
  ∧ _connections (snd (disconnect 9%nat world37)) = _connections world37.
Proof.
  assert (H9 : 9%nat ∉ _connections world37) by (vm_compute; set_solver).
  split; [exact H9|].
  exact (proj2 (proj2 (proj2 (proj2 (proj2
           (disconnect_is_idempotent 9%nat world37))))) H9).
Defined.

(** X2. A [connect] whose handshake succeeds followed by the [disconnect]
    of the same connection leaves the live set the other tasks made,
    without the connection; when the connection was not registered before
    and no other task ran, that is the live set from before. *)
Theorem connect_then_disconnect (ws : WebSocket) (x : io) (w : World) :
  raised x = None ->
  let w2 := snd (disconnect ws (snd (connect ws x w))) in
  _connections w2 = apply_ops (meanwhile x) (_connections w) ∖ {[ws]}
  ∧ (meanwhile x = [] -> ws ∉ _connections w ->
     _connections w2 = _connections w)
  ∧ own_discards (added_trace w w2) = [ws].
Proof.
  intros Hx w2. unfold w2. rewrite connect_run, Hx.
  unfold disconnect, discard. cbn [snd _connections trace db].
  split; [set_solver|]. split.
  - intros -> Hws. simpl. set_solver.
  - erewrite added_trace_app by (rewrite <- !app_assoc; reflexivity).
    rewrite !own_discards_app. simpl.
    induction (meanwhile x); simpl; auto.
Qed.

Lemma connect_then_disconnect_witness :
  raised io_ok = None
  ∧ meanwhile io_ok = []
  ∧ (9%nat ∉ _connections world37)
  ∧ _connections (snd (disconnect 9%nat (snd (connect 9%nat io_ok world37))))
    = _connections world37.
Proof.
  assert (H9 : 9%nat ∉ _connections world37) by (vm_compute; set_solver).
  split; [reflexivity|]. split; [reflexivity|]. split; [exact H9|].
  exact (proj1 (proj2 (connect_then_disconnect 9%nat io_ok world37 eq_refl))
           eq_refl H9).
Defined.

(** X3. A [broadcast] when nobody is registered does nothing at all: it
    returns and the world is the one it started in. *)
Theorem broadcast_to_nobody
    (message : Event) (sched : WebSocket -> io) (w : World) :
  _connections w = ∅ -> broadcast message sched w = (Return tt, w).
Proof.
  intros He. rewrite broadcast_spec. rewrite He, elements_empty.
  unfold during, delivery_trace, failed. simpl.
  rewrite elements_empty. simpl. rewrite app_nil_r.
  destruct w as [d c t]. simpl in *. subst c.
  f_equal; f_equal; set_solver.
Qed.

Lemma broadcast_to_nobody_witness :
  _connections world0 = ∅
  ∧ broadcast hello dead3 world0 = (Return tt, world0).
Proof.
  split; [reflexivity|].
  exact (broadcast_to_nobody hello dead3 world0 eq_refl).
Defined.

Lemma delivered_to_app ws t1 t2 :
  delivered_to ws (t1 ++ t2) = delivered_to ws t1 ++ delivered_to ws t2.
Proof. unfold delivered_to. apply flat_map_app. Qed.

Lemma delivered_to_meanwhile ws ops :
  delivered_to ws (List.map Meanwhile ops) = [].
Proof. induction ops; simpl; auto. Qed.

Lemma delivered_to_discards ws l : delivered_to ws (List.map Discard l) = [].
Proof. induction l; simpl; auto. Qed.

(** What the delivery loop over a list without repetition delivers to
    one connection. *)
Lemma delivered_to_delivery ws message sched l :
  NoDup l ->
  delivered_to ws (delivery_trace message sched l)
  = if decide (ws ∈ l)
    then (if fails sched ws then [] else [message])
    else [].
Proof.
  induction 1 as [|c l Hc Hl IH].
  - simpl. destruct (decide (ws ∈ [])) as [H|H]; [inversion H|reflexivity].
  - unfold delivery_trace. simpl. fold (delivery_trace message sched l).
    rewrite !delivered_to_app, delivered_to_meanwhile, IH. simpl.
    destruct (decide (c = ws)) as [->|Hne].
    + destruct (decide (ws ∈ l)); [contradiction|].
      destruct (decide (ws ∈ ws :: l)) as [|Hn];
        [|exfalso; apply Hn; constructor].
      destruct (fails sched ws); simpl; [reflexivity|].
      rewrite bool_decide_eq_true_2 by reflexivity. reflexivity.
    + assert (Hno : (match negb (fails sched c) with
                     | true => if bool_decide (c = ws) then [message] else []
                     | false => []
                     end) = @nil Event).
      { rewrite bool_decide_eq_false_2 by assumption.
        destruct (negb (fails sched c)); reflexivity. }
      rewrite Hno. simpl.
      destruct (decide (ws ∈ l)) as [Hi|Hn];
        destruct (decide (ws ∈ c :: l)) as [Hi'|Hn']; try reflexivity.
      * exfalso; apply Hn'; constructor; assumption.
      * exfalso. inversion Hi'; subst; [congruence|contradiction].
Qed.

(** What one [broadcast] call delivers to one connection. *)
Lemma broadcast_delivered_to message sched w ws :
  delivered_to ws (added_trace w (snd (broadcast message sched w)))
  = if decide (ws ∈ _connections w)
    then (if fails sched ws then [] else [message])
    else [].
Proof.
  rewrite broadcast_spec. simpl.
  erewrite added_trace_app by reflexivity.
  rewrite delivered_to_app, delivered_to_discards, app_nil_r.
  rewrite delivered_to_delivery by apply NoDup_elements.
  destruct (decide (ws ∈ elements (_connections w))) as [Hi|Hn];
    destruct (decide (ws ∈ _connections w)) as [Hi'|Hn']; try reflexivity.
  - exfalso; apply Hn'; apply elem_of_elements; assumption.
  - exfalso; apply Hn; apply elem_of_elements; assumption.
Qed.

Lemma broadcast_trace_grows message sched w :
  ∃ tr, trace (snd (broadcast message sched w)) = trace w ++ tr.
Proof. rewrite broadcast_spec. simpl. eexists. reflexivity. Qed.

(** X4. In a [broadcast] call a send that raises touches no other
    connection: every registered connection whose own send succeeds is
    delivered the message, once, whatever happens to the sends to the
    others; a connection whose send raises is delivered nothing. *)
Theorem failing_send_affects_no_other
    (message : Event) (sched : WebSocket -> io) (w : World) (ws : WebSocket) :
  ws ∈ _connections w ->
  let tr := added_trace w (snd (broadcast message sched w)) in
  (fails sched ws = false -> delivered_to ws tr = [message])
  ∧ (fails sched ws = true -> delivered_to ws tr = []).
Proof.
  intros Hin tr. unfold tr. rewrite broadcast_delivered_to.
  destruct (decide (ws ∈ _connections w)); [|contradiction].
  split; intros ->; reflexivity.
Qed.

Lemma failing_send_affects_no_other_witness :
  7%nat ∈ _connections world37
  ∧ fails dead3 7%nat = false
  ∧ fails dead3 3%nat = true
  ∧ delivered_to 7%nat
      (added_trace world37 (snd (broadcast hello dead3 world37))) = [hello]
  ∧ delivered_to 3%nat
      (added_trace world37 (snd (broadcast hello dead3 world37))) = [].
Proof.
  assert (H7 : 7%nat ∈ _connections world37) by (vm_compute; reflexivity).
  assert (H3 : 3%nat ∈ _connections world37) by (vm_compute; reflexivity).
  split; [exact H7|]. split; [reflexivity|]. split; [reflexivity|]. split.
  - exact (proj1 (failing_send_affects_no_other hello dead3 world37 7%nat H7)
             eq_refl).
  - exact (proj2 (failing_send_affects_no_other hello dead3 world37 3%nat H3)
             eq_refl).
Defined.

(** X5. Two [broadcast] calls one after the other: a connection that is
    registered at both calls and whose two sends succeed is delivered the
    two messages in the order of the calls. *)
Theorem consecutive_broadcasts_arrive_in_order
    (m1 m2 : Event) (s1 s2 : WebSocket -> io) (w : World) (ws : WebSocket) :
  let w1 := snd (broadcast m1 s1 w) in
  let w2 := snd (broadcast m2 s2 w1) in
  ws ∈ _connections w -> ws ∈ _connections w1 ->
  fails s1 ws = false -> fails s2 ws = false ->
  delivered_to ws (added_trace w w2) = [m1; m2].
Proof.
  intros w1 w2 Hin Hin1 Hf1 Hf2.
  destruct (broadcast_trace_grows m1 s1 w) as [t1 Ht1].
  destruct (broadcast_trace_grows m2 s2 w1) as [t2 Ht2].
  fold w1 in Ht1. fold w2 in Ht2.
  pose proof (broadcast_delivered_to m1 s1 w ws) as D1.
  pose proof (broadcast_delivered_to m2 s2 w1 ws) as D2.
  fold w1 in D1. fold w2 in D2.
  rewrite (added_trace_app w w1 t1 Ht1) in D1.
  rewrite (added_trace_app w1 w2 t2 Ht2) in D2.
  rewrite (added_trace_app w w2 (t1 ++ t2))
    by (rewrite Ht2, Ht1, <- app_assoc; reflexivity).
  rewrite delivered_to_app, D1, D2, Hf1, Hf2.
  destruct (decide (ws ∈ _connections w)); [|contradiction].
  destruct (decide (ws ∈ _connections w1)); [|contradiction].
  reflexivity.
Qed.

Lemma consecutive_broadcasts_arrive_in_order_witness :
  delivered_to 7%nat
    (added_trace world37
       (snd (broadcast (poll_snapshot []) quiet
               (snd (broadcast hello dead3 world37)))))
  = [hello; poll_snapshot []].
Proof.
  apply (consecutive_broadcasts_arrive_in_order
           hello (poll_snapshot []) dead3 quiet world37 7%nat);
    vm_compute; reflexivity.
Defined.

(** X6. A connection whose send raises in one [broadcast] call is out of
    the live set when the call ends, so the next [broadcast] call makes
    no delivery attempt to it. *)
Theorem failed_connection_is_not_tried_again
    (m1 m2 : Event) (s1 s2 : WebSocket -> io) (w : World) (ws : WebSocket) :
  let w1 := snd (broadcast m1 s1 w) in
  ws ∈ _connections w -> fails s1 ws = true ->
  (ws ∉ _connections w1)
  ∧ attempts ws m2 (added_trace w1 (snd (broadcast m2 s2 w1))) = 0%nat
  ∧ delivered_to ws (added_trace w1 (snd (broadcast m2 s2 w1))) = [].
Proof.
  intros w1 Hin Hf.
  assert (Hout : ws ∉ _connections w1).
  { unfold w1. rewrite broadcast_spec. simpl.
    assert (ws ∈ failed s1 (elements (_connections w))).
    { apply elem_of_failed. split; [apply elem_of_elements|]; assumption. }
    set_solver. }
  split; [exact Hout|].
  rewrite broadcast_attempts, broadcast_delivered_to.
  destruct (decide (ws ∈ _connections w1)); [contradiction|].
  split; reflexivity.
Qed.

Lemma failed_connection_is_not_tried_again_witness :
  3%nat ∈ _connections world37
  ∧ fails dead3 3%nat = true
  ∧ attempts 3%nat hello
      (added_trace (snd (broadcast hello dead3 world37))
         (snd (broadcast hello quiet (snd (broadcast hello dead3 world37)))))
    = 0%nat.
Proof.
  assert (H3 : 3%nat ∈ _connections world37) by (vm_compute; reflexivity).
  split; [exact H3|]. split; [reflexivity|].
  exact (proj1 (proj2 (failed_connection_is_not_tried_again
                         hello hello dead3 quiet world37 3%nat H3 eq_refl))).
Defined.

(** ** The handlers: responses, failures and what is broadcast *)


(** X7. What a create, vote or like request answers and what it leaves in
    the database do not depend on the deliveries: under any other
    schedule of the sends, failing ones included, the outcome and the
    store are the same. *)
Theorem response_does_not_depend_on_delivery
    (r : Request) (sched' : WebSocket -> io) (w : World) :
  fst (handle (reschedule r sched') w) = fst (handle r w)
  ∧ db (snd (handle (reschedule r sched') w)) = db (snd (handle r w)).
Proof.
  destruct r as [payload now sched|pid vote sched|pid sched]; simpl.
  - rewrite !create_poll_run. cbn zeta.
    destruct (length (clean_options (pc_options payload)) <? 2)%nat;
      [split; reflexivity|].
    destruct (insert_poll _ _ _ _ _) as [pid s'].
    cbn [fst snd]. rewrite !broadcast_db. split; reflexivity.
  - rewrite !vote_on_poll_run.
    destruct (select_poll (db w) pid) as [p|]; [|split; reflexivity].
    destruct (get_option (db w) (option_id vote)) as [o|]; [|split; reflexivity].
    destruct (negb (poll_id o =? poll_pk p)); [split; reflexivity|].
    cbn zeta. cbn [fst snd]. rewrite !broadcast_db. split; reflexivity.
  - rewrite !like_poll_run.
    destruct (select_poll (db w) pid) as [p|]; [|split; reflexivity].
    cbn zeta. cbn [fst snd]. rewrite !broadcast_db. split; reflexivity.
Qed.





(** X10. [like_poll] fails only when no poll has the addressed key, and
    then with no change to the world: with 404 when the key is a 64-bit
    integer, with the driver's [OverflowError] when it is not. A poll that
    exists can always be liked. *)
Theorem like_fails_only_on_missing_poll
    (pid : Z) (sched : WebSocket -> io) (w : World) :
  (select_poll (db w) pid = None -> in_int64 pid = true ->
   like_poll pid sched w = (Raise (HTTPException 404 "Poll not found"), w))
  ∧ (select_poll (db w) pid = None -> in_int64 pid = false ->
     like_poll pid sched w = (Raise OverflowError, w))
  ∧ (select_poll (db w) pid <> None ->
     ∃ pr, fst (like_poll pid sched w) = Return pr ∧ pr_id pr = pid).
Proof.
  rewrite like_poll_run.
  destruct (select_poll (db w) pid) as [p|] eqn:Hp.
  - split; [discriminate|]. split; [discriminate|]. intros _.
    cbn zeta. cbn [fst].
    eexists. split; [reflexivity|]. simpl. apply (select_poll_pk _ _ _ Hp).
  - split; [intros _ ->; reflexivity|]. split; [intros _ ->; reflexivity|].
    congruence.
Qed.

Lemma like_fails_only_on_missing_poll_witness :
  (select_poll (db world_tea) 7 = None
   ∧ in_int64 7 = true
   ∧ like_poll 7 quiet world_tea
     = (Raise (HTTPException 404 "Poll not found"), world_tea))
  ∧ (select_poll (db world_tea) (2 ^ 63) = None
     ∧ in_int64 (2 ^ 63) = false
     ∧ like_poll (2 ^ 63) quiet world_tea = (Raise OverflowError, world_tea))
  ∧ (select_poll (db world_tea) 1 <> None
     ∧ ∃ pr, fst (like_poll 1 quiet world_tea) = Return pr ∧ pr_id pr = 1).
Proof.
  split; [|split].
  - split; [vm_compute; reflexivity|]. split; [reflexivity|].
    apply (proj1 (like_fails_only_on_missing_poll 7 quiet world_tea));
      vm_compute; reflexivity.
  - split; [vm_compute; reflexivity|]. split; [reflexivity|].
    apply (proj1 (proj2 (like_fails_only_on_missing_poll
                           (2 ^ 63) quiet world_tea)));
      vm_compute; reflexivity.
  - split; [vm_compute; discriminate|].
    apply (proj2 (proj2 (like_fails_only_on_missing_poll 1 quiet world_tea))).
    vm_compute; discriminate.
Defined.

(** ** Reading polls *)

Lemma select_poll_none s pid :
  select_poll s pid = None ↔ ¬ In pid (List.map poll_pk (polls s)).
Proof.
  unfold select_poll. split.
  - intros Hn Hin. apply in_map_iff in Hin as (p & Hpk & Hp).
    pose proof (List.find_none _ _ Hn p Hp) as Hf. simpl in Hf. lia.
  - intros Hn. destruct (List.find _ _) as [p|] eqn:Hf; [|reflexivity].
    exfalso. apply Hn. apply List.find_some in Hf as [Hp Hpk].
    apply in_map_iff. exists p. split; [lia|exact Hp].
Qed.



Lemma insert_desc_perm p l : insert_desc p l ≡ₚ p :: l.
Proof.
  induction l as [|q l IH]; simpl; [reflexivity|].
  destruct (created_at q <=? created_at p); [reflexivity|].
  rewrite IH. apply Permutation_swap.
Qed.

Lemma select_polls_desc_perm s : select_polls_desc s ≡ₚ polls s.
Proof.
  unfold select_polls_desc. induction (polls s) as [|p l IH]; simpl;
    [reflexivity|].
  rewrite insert_desc_perm, IH. reflexivity.
Qed.

Lemma insert_desc_sorted p l :
  newest_first (List.map created_at l) = true ->
  newest_first (List.map created_at (insert_desc p l)) = true.
Proof.
  induction l as [|q l IH]; intros Hs; [reflexivity|].
  simpl. destruct (created_at q <=? created_at p) eqn:Hqp.
  - simpl. apply andb_true_iff. split; [exact Hqp|exact Hs].
  - apply Z.leb_gt in Hqp. destruct l as [|r l].
    + simpl. apply andb_true_iff. split; [apply Z.leb_le; lia|reflexivity].
    + simpl in Hs. apply andb_true_iff in Hs as [Hrq Hs].
      specialize (IH Hs). simpl in IH. simpl.
      destruct (created_at r <=? created_at p) eqn:Hrp.
      * simpl. rewrite andb_true_iff. split; [apply Z.leb_le; lia|].
        exact IH.
      * simpl. rewrite andb_true_iff. split; [exact Hrq|]. exact IH.
Qed.

Example equal_times_come_in_table_order :
  List.map poll_pk
    (select_polls_desc
       (mkStore [mkPoll 1 (lit "a") None 5 0; mkPoll 2 (lit "b") None 7 0;
                 mkPoll 3 (lit "c") None 5 0] []))
  = [2; 1; 3].
Proof. reflexivity. Qed.

Lemma select_polls_desc_sorted s :
  newest_first (List.map created_at (select_polls_desc s)) = true.
Proof.
  unfold select_polls_desc. induction (polls s) as [|p l IH]; simpl;
    [reflexivity|]. apply insert_desc_sorted. exact IH.
Qed.

(** X12. [list_polls] only reads. It answers every poll of the store
    exactly once, serialised with its own options, and in the answer the
    creation times never increase: the newest poll comes first. *)
Theorem list_polls_lists_all_newest_first (w : World) :
  ∃ l, list_polls w = (Return l, w)
       ∧ l ≡ₚ List.map (fun p => serialize_poll (load (db w) p))
                       (polls (db w))
       ∧ length l = length (polls (db w))
       ∧ newest_first (List.map pr_created_at l) = true.
Proof.
  rewrite list_polls_run. eexists. split; [reflexivity|]. split; [|split].
  - apply Permutation_map, select_polls_desc_perm.
  - rewrite length_map. apply Permutation_length, select_polls_desc_perm.
  - rewrite List.map_map. simpl. apply select_polls_desc_sorted.
Qed.

(** X13. After a [create_poll] that succeeds, [list_polls] shows the new
    poll as the response gave it, and lists one poll more than before. *)
Theorem created_poll_is_listed
    (payload : PollCreate) (now : Z) (sched : WebSocket -> io) (w : World)
    (pr : PollRead) :
  fst (create_poll payload now sched w) = Return pr ->
  let w' := snd (create_poll payload now sched w) in
  ∃ before after,
    fst (list_polls w) = Return before
    ∧ fst (list_polls w') = Return after
    ∧ In pr after
    ∧ length after = S (length before).
Proof.
  intros Hret w'. unfold w'. revert Hret.
  rewrite create_poll_run. cbn zeta.
  destruct (length (clean_options (pc_options payload)) <? 2)%nat;
    [discriminate|].
  unfold insert_poll. cbn [fst snd]. intros [= <-].
  rewrite !list_polls_run. cbn [fst]. rewrite broadcast_db. cbn [db].
  eexists _, _. split; [reflexivity|]. split; [reflexivity|]. split.
  - apply in_map_iff. eexists. split; [reflexivity|].
    apply list_elem_of_In.
    rewrite select_polls_desc_perm. cbn [polls].
    apply list_elem_of_In, in_app_iff. right. left. reflexivity.
  - rewrite !length_map.
    rewrite (Permutation_length (select_polls_desc_perm _)).
    rewrite (Permutation_length (select_polls_desc_perm (db w))).
    cbn [polls]. rewrite length_app. simpl. lia.
Qed.

Lemma created_poll_is_listed_witness :
  ∃ pr after,
    fst (create_poll tea 100 quiet world37) = Return pr
    ∧ fst (list_polls (snd (create_poll tea 100 quiet world37))) = Return after
    ∧ In pr after.
Proof.
  assert (H : ∃ pr, fst (create_poll tea 100 quiet world37) = Return pr)
    by (eexists; vm_compute; reflexivity).
  destruct H as [pr H].
  destruct (created_poll_is_listed tea 100 quiet world37 pr H)
    as (before & after & _ & Ha & Hin & _).
  exists pr, after. split; [exact H|]. split; [exact Ha|exact Hin].
Defined.

(** ** What the requests keep in the store *)

Lemma rows_kept_refl s : rows_kept s s.
Proof. split; intros k x H; exists x; auto. Qed.

Lemma rows_kept_trans s1 s2 s3 :
  rows_kept s1 s2 -> rows_kept s2 s3 -> rows_kept s1 s3.
Proof.
  intros [P12 O12] [P23 O23]. split.
  - intros pid p H. destruct (P12 _ _ H) as (p2 & H2 & A & B & C).
    destruct (P23 _ _ H2) as (p3 & H3 & A' & B' & C'). exists p3.
    repeat split; congruence.
  - intros oid o H. destruct (O12 _ _ H) as (o2 & H2 & A & B).
    destruct (O23 _ _ H2) as (o3 & H3 & A' & B'). exists o3.
    repeat split; congruence.
Qed.

Lemma rows_kept_update_votes s oid v : rows_kept s (update_votes s oid v).
Proof.
  split.
  - intros pid p H. exists p. auto.
  - intros k o H. rewrite update_votes_get, H. simpl.
    destruct (option_pk o =? oid); eexists; split; try reflexivity; auto.
Qed.

Lemma rows_kept_update_likes s pid v : rows_kept s (update_likes s pid v).
Proof.
  split.
  - intros k p H. rewrite update_likes_select, H. simpl.
    destruct (poll_pk p =? pid); eexists; split; try reflexivity; auto.
  - intros oid o H. exists o. auto.
Qed.

Lemma rows_kept_insert_poll s q d now texts :
  rows_kept s (snd (insert_poll s q d now texts)).
Proof.
  split.
  - intros pid p H. exists p. split; [|auto].
    apply insert_poll_keeps_poll. exact H.
  - intros oid o H. exists o. split; [|auto].
    apply insert_poll_keeps_option. exact H.
Qed.

(** The store a request leaves: the one it found, or one update, or one
    insertion. *)
Lemma handle_db r w :
  db (snd (handle r w)) = db w
  ∨ (∃ oid v, db (snd (handle r w)) = update_votes (db w) oid v)
  ∨ (∃ pid v, db (snd (handle r w)) = update_likes (db w) pid v)
  ∨ (∃ q d now texts,
       db (snd (handle r w)) = snd (insert_poll (db w) q d now texts)).
Proof.
  destruct r as [payload now sched|pid vote sched|pid sched]; cbn [handle].
  - rewrite create_poll_run. cbn zeta.
    destruct (length (clean_options (pc_options payload)) <? 2)%nat;
      [left; reflexivity|].
    destruct (insert_poll _ _ _ _ _) as [pid s'] eqn:E.
    right. right. right.
    exists (strip (pc_question payload)), (pc_description payload), now,
      (clean_options (pc_options payload)).
    rewrite E. cbn [snd]. rewrite broadcast_db. reflexivity.
  - rewrite vote_on_poll_run.
    destruct (select_poll (db w) pid) as [p|]; [|left; reflexivity].
    destruct (get_option (db w) (option_id vote)) as [o|]; [|left; reflexivity].
    destruct (negb (poll_id o =? poll_pk p)); [left; reflexivity|].
    right. left. cbn zeta. cbn [snd]. rewrite broadcast_db. cbn [db].
    eexists _, _. reflexivity.
  - rewrite like_poll_run.
    destruct (select_poll (db w) pid) as [p|]; [|left; reflexivity].
    right. right. left. cbn zeta. cbn [snd]. rewrite broadcast_db. cbn [db].
    eexists _, _. reflexivity.
Qed.

Lemma handle_rows_kept r w : rows_kept (db w) (db (snd (handle r w))).
Proof.
  destruct (handle_db r w)
    as [E|[(oid & v & E)|[(pid & v & E)|(q & d & now & texts & E)]]];
    rewrite E.
  - apply rows_kept_refl.
  - apply rows_kept_update_votes.
  - apply rows_kept_update_likes.
  - apply rows_kept_insert_poll.
Qed.

(** X14. Over any run of create, vote and like requests, every poll stays
    in the store under its key with the question, description and
    creation time it had, and every option stays under its key with the
    text and the parent poll it had. No request deletes or rewrites
    them. *)
Theorem requests_keep_rows (rs : list Request) (w : World) :
  rows_kept (db w) (db (serve rs w)).
Proof.
  revert w. induction rs as [|r rs IH]; intros w; simpl.
  - apply rows_kept_refl.
  - eapply rows_kept_trans; [apply handle_rows_kept|apply IH].
Qed.

Lemma filter_map_commute {A} (f : A -> bool) (g : A -> A) l :
  (∀ a, f (g a) = f a) ->
  List.filter f (List.map g l) = List.map g (List.filter f l).
Proof.
  intros Hfg. induction l as [|a l IH]; simpl; [reflexivity|].
  rewrite Hfg. destruct (f a); simpl; rewrite IH; reflexivity.
Qed.

Lemma handle_keeps_options_of r w pid :
  select_poll (db w) pid <> None ->
  List.map (fun o => (option_pk o, text o))
           (options_of (db (snd (handle r w))) pid)
  = List.map (fun o => (option_pk o, text o)) (options_of (db w) pid).
Proof.
  intros Hp.
  destruct (handle_db r w)
    as [E|[(oid & v & E)|[(k & v & E)|(q & d & now & texts & E)]]];
    rewrite E.
  - reflexivity.
  - unfold options_of, update_votes. cbn [poll_options].
    rewrite filter_map_commute
      by (intros a; destruct (option_pk a =? oid); reflexivity).
    rewrite List.map_map. apply map_ext.
    intros a. destruct (option_pk a =? oid); reflexivity.
  - reflexivity.
  - unfold options_of, insert_poll. cbn [snd poll_options].
    rewrite insert_options_app, List.filter_app.
    rewrite (filter_none _ (new_options _ _ _)); [rewrite app_nil_r; reflexivity|].
    eapply Forall_impl; [apply new_options_fresh|].
    simpl. intros o [_ ->]. apply Z.eqb_neq. intros Heq.
    apply Hp. apply select_poll_none. intros Hin.
    pose proof (next_rowid_above _ _ Hin). lia.
Qed.

(** X15. The options of a poll are fixed once it exists: over any run of
    create, vote and like requests, the option rows that belong to an
    existing poll keep the same keys and texts in the same order; none is
    added and none removed. *)
Theorem options_of_a_poll_are_fixed
    (rs : list Request) (w : World) (pid : Z) :
  select_poll (db w) pid <> None ->
  List.map (fun o => (option_pk o, text o)) (options_of (db (serve rs w)) pid)
  = List.map (fun o => (option_pk o, text o)) (options_of (db w) pid).
Proof.
  revert w. induction rs as [|r rs IH]; intros w Hp; simpl; [reflexivity|].
  rewrite IH.
  - apply handle_keeps_options_of. exact Hp.
  - destruct (select_poll (db w) pid) as [p|] eqn:E; [|congruence].
    destruct (proj1 (handle_rows_kept r w) _ _ E) as (p' & Hp' & _).
    congruence.
Qed.

Lemma options_of_a_poll_are_fixed_witness :
  select_poll (db world_tea) 1 <> None
  ∧ List.map (fun o => (option_pk o, text o))
      (options_of
         (db (serve [ReqVote 1 (mkVoteRequest 2) quiet;
                     ReqCreate blank_question 7 quiet;
                     ReqLike 1 quiet] world_tea)) 1)
    = [(1, lit "Tea"); (2, lit "Coffee")].
Proof.
  assert (H : select_poll (db world_tea) 1 <> None)
    by (vm_compute; discriminate).
  split; [exact H|].
  rewrite (options_of_a_poll_are_fixed
             [ReqVote 1 (mkVoteRequest 2) quiet;
              ReqCreate blank_question 7 quiet;
              ReqLike 1 quiet] world_tea 1 H).
  vm_compute. reflexivity.
Defined.

(** ** Primary keys and totals *)

Lemma next_rowid_not_in keys : ¬ In (next_rowid keys) keys.
Proof. intros H. pose proof (next_rowid_above _ _ H). lia. Qed.

Lemma NoDup_snoc_fresh (keys : list Z) :
  NoDup keys -> NoDup (keys ++ [next_rowid keys]).
Proof.
  intros H. apply NoDup_app. split; [exact H|]. split.
  - intros k Hk Hk'. apply list_elem_of_singleton in Hk'. subst k.
    apply list_elem_of_In in Hk. exact (next_rowid_not_in _ Hk).
  - apply NoDup_singleton.
Qed.

Lemma insert_options_keys texts : ∀ tbl pid,
  NoDup (List.map option_pk tbl) ->
  NoDup (List.map option_pk (insert_options tbl pid texts)).
Proof.
  induction texts as [|t texts IH]; intros tbl pid H; simpl; [exact H|].
  apply IH. rewrite List.map_app. simpl. apply NoDup_snoc_fresh. exact H.
Qed.

Lemma map_pk_update {A} (pk : A -> Z) (g : A -> A) l :
  (∀ a, pk (g a) = pk a) -> List.map pk (List.map g l) = List.map pk l.
Proof. intros H. rewrite List.map_map. apply map_ext. exact H. Qed.

Lemma handle_keys_unique r w :
  keys_unique (db w) -> keys_unique (db (snd (handle r w))).
Proof.
  intros [Hp Ho].
  destruct (handle_db r w)
    as [E|[(oid & v & E)|[(k & v & E)|(q & d & now & texts & E)]]];
    rewrite E.
  - split; assumption.
  - split; [exact Hp|]. unfold update_votes. cbn [poll_options].
    rewrite map_pk_update; [exact Ho|].
    intros a. destruct (option_pk a =? oid); reflexivity.
  - split; [|exact Ho]. unfold update_likes. cbn [polls].
    rewrite map_pk_update; [exact Hp|].
    intros a. destruct (poll_pk a =? k); reflexivity.
  - unfold insert_poll. cbn [snd]. split; cbn [polls poll_options].
    + rewrite List.map_app. simpl. apply NoDup_snoc_fresh. exact Hp.
    + apply insert_options_keys. exact Ho.
Qed.

Lemma serve_keys_unique rs : ∀ w,
  keys_unique (db w) -> keys_unique (db (serve rs w)).
Proof.
  induction rs as [|r rs IH]; intros w H; simpl; [exact H|].
  apply IH, handle_keys_unique, H.
Qed.

Lemma find_unique {A} (pk : A -> Z) (l : list A) (a : A) :
  NoDup (List.map pk l) -> In a l ->
  List.find (fun b => pk b =? pk a) l = Some a.
Proof.
  induction l as [|b l IH]; intros Hnd Hin; [destruct Hin|].
  simpl in Hnd. apply NoDup_cons in Hnd as [Hb Hnd]. simpl.
  destruct Hin as [->|Hin].
  - rewrite Z.eqb_refl. reflexivity.
  - destruct (pk b =? pk a) eqn:E; [|apply IH; assumption].
    exfalso. apply Hb. apply Z.eqb_eq in E. rewrite E.
    apply list_elem_of_In, in_map, Hin.
Qed.

(** X16. In every store the create, vote and like requests reach from an
    empty database, no two polls share a key and no two options share a
    key; so each row of a table is the row found under its key. *)
Theorem primary_keys_are_unique
    (history : list Request) (observers : gset WebSocket)
    (sofar : list Action) :
  let s := db (serve history (mkWorld empty_store observers sofar)) in
  keys_unique s
  ∧ (∀ p, In p (polls s) -> select_poll s (poll_pk p) = Some p)
  ∧ (∀ o, In o (poll_options s) -> get_option s (option_pk o) = Some o).
Proof.
  intros s.
  assert (H : keys_unique s).
  { apply serve_keys_unique. split; apply NoDup_nil_2. }
  split; [exact H|]. destruct H as [Hp Ho]. split.
  - intros p Hin. apply (find_unique poll_pk); assumption.
  - intros o Hin. apply (find_unique option_pk); assumption.
Qed.

Lemma primary_keys_are_unique_witness :
  In (mkPollOption 2 (lit "Coffee") 0 1)
     (poll_options (db (serve [ReqCreate tea 100 quiet] world0)))
  ∧ get_option (db (serve [ReqCreate tea 100 quiet] world0)) 2
    = Some (mkPollOption 2 (lit "Coffee") 0 1).
Proof.
  assert (H : In (mkPollOption 2 (lit "Coffee") 0 1)
                (poll_options (db (serve [ReqCreate tea 100 quiet] world0))))
    by (vm_compute; auto).
  split; [exact H|].
  exact (proj2 (proj2 (primary_keys_are_unique [ReqCreate tea 100 quiet] ∅ []))
           _ H).
Defined.

Lemma sum_votes_untouched oid v l :
  ¬ In oid (List.map option_pk l) ->
  List.map (fun o => if option_pk o =? oid
                     then mkPollOption (option_pk o) (text o) v (poll_id o)
                     else o) l = l.
Proof.
  induction l as [|a l IH]; intros Hn; simpl; [reflexivity|].
  simpl in Hn. destruct (option_pk a =? oid) eqn:E.
  - exfalso. apply Hn. left. lia.
  - rewrite IH; [reflexivity|]. intros H. apply Hn. right. exact H.
Qed.

Lemma sum_votes_update oid v l o :
  NoDup (List.map option_pk l) ->
  List.find (fun a => option_pk a =? oid) l = Some o ->
  fold_right Z.add 0
    (List.map votes
       (List.map (fun a => if option_pk a =? oid
                           then mkPollOption (option_pk a) (text a) v (poll_id a)
                           else a) l))
  = fold_right Z.add 0 (List.map votes l) + (v - votes o).
Proof.
  induction l as [|a l IH]; intros Hnd Hf; [discriminate|].
  simpl in Hnd. apply NoDup_cons in Hnd as [Ha Hnd]. simpl in Hf. simpl.
  destruct (option_pk a =? oid) eqn:E.
  - injection Hf as <-. apply Z.eqb_eq in E.
    rewrite sum_votes_untouched.
    + simpl. lia.
    + rewrite <- E. intros H. apply Ha. apply list_elem_of_In. exact H.
  - rewrite IH by assumption. lia.
Qed.

Lemma sum_likes_untouched pid v l :
  ¬ In pid (List.map poll_pk l) ->
  List.map (fun p => if poll_pk p =? pid
                     then mkPoll (poll_pk p) (question p) (description p)
                                 (created_at p) v
                     else p) l = l.
Proof.
  induction l as [|a l IH]; intros Hn; simpl; [reflexivity|].
  simpl in Hn. destruct (poll_pk a =? pid) eqn:E.
  - exfalso. apply Hn. left. lia.
  - rewrite IH; [reflexivity|]. intros H. apply Hn. right. exact H.
Qed.

Lemma sum_likes_update pid v l p :
  NoDup (List.map poll_pk l) ->
  List.find (fun a => poll_pk a =? pid) l = Some p ->
  fold_right Z.add 0
    (List.map likes
       (List.map (fun a => if poll_pk a =? pid
                           then mkPoll (poll_pk a) (question a) (description a)
                                       (created_at a) v
                           else a) l))
  = fold_right Z.add 0 (List.map likes l) + (v - likes p).
Proof.
  induction l as [|a l IH]; intros Hnd Hf; [discriminate|].
  simpl in Hnd. apply NoDup_cons in Hnd as [Ha Hnd]. simpl in Hf. simpl.
  destruct (poll_pk a =? pid) eqn:E.
  - injection Hf as <-. apply Z.eqb_eq in E.
    rewrite sum_likes_untouched.
    + simpl. lia.
    + rewrite <- E. intros H. apply Ha. apply list_elem_of_In. exact H.
  - rewrite IH by assumption. lia.
Qed.

Lemma sum_new_options texts : ∀ tbl pid,
  fold_right Z.add 0 (List.map votes (new_options tbl pid texts)) = 0.
Proof. induction texts; intros; simpl; [reflexivity|apply IHtexts]. Qed.

Lemma fold_sum_app l1 l2 :
  fold_right Z.add 0 (l1 ++ l2)
  = fold_right Z.add 0 l1 + fold_right Z.add 0 l2.
Proof. induction l1; simpl; lia. Qed.

Lemma handle_totals r w pr :
  keys_unique (db w) ->
  fst (handle r w) = Return pr ->
  total_votes (db (snd (handle r w)))
  = total_votes (db w) + (match r with ReqVote _ _ _ => 1 | _ => 0 end)
  ∧ total_likes (db (snd (handle r w)))
    = total_likes (db w) + (match r with ReqLike _ _ => 1 | _ => 0 end).
Proof.
  intros [Hkp Hko].
  destruct r as [payload now sched|pid vote sched|pid sched]; cbn [handle].
  - rewrite create_poll_run. cbn zeta.
    destruct (length (clean_options (pc_options payload)) <? 2)%nat;
      [discriminate|].
    unfold insert_poll. cbn [fst snd]. intros _. rewrite broadcast_db.
    unfold total_votes, total_likes. cbn [db polls poll_options].
    rewrite insert_options_app, !List.map_app, !fold_sum_app, sum_new_options.
    simpl. lia.
  - rewrite vote_on_poll_run.
    destruct (select_poll (db w) pid) as [p|]; [|discriminate].
    destruct (get_option (db w) (option_id vote)) as [o|] eqn:Ho;
      [|discriminate].
    destruct (negb (poll_id o =? poll_pk p)); [discriminate|].
    cbn zeta. cbn [fst snd]. intros _. rewrite broadcast_db.
    unfold total_votes, total_likes, update_votes.
    cbn [db polls poll_options].
    rewrite (sum_votes_update _ _ _ o Hko).
    + lia.
    + rewrite (get_option_pk _ _ _ Ho). exact Ho.
  - rewrite like_poll_run.
    destruct (select_poll (db w) pid) as [p|] eqn:Hp; [|discriminate].
    cbn zeta. cbn [fst snd]. intros _. rewrite broadcast_db.
    unfold total_votes, total_likes, update_likes.
    cbn [db polls poll_options].
    rewrite (sum_likes_update _ _ _ p Hkp).
    + lia.
    + rewrite (select_poll_pk _ _ _ Hp). exact Hp.
Qed.

(** X17. In a store reached from an empty database, a request that
    succeeds changes the totals of the whole store by exactly this: a
    vote adds one vote and no like, a like adds one like and no vote, a
    create adds neither. *)
Theorem totals_change_by_one
    (history : list Request) (observers : gset WebSocket)
    (sofar : list Action) (r : Request) (pr : PollRead) :
  let w := serve history (mkWorld empty_store observers sofar) in
  let s' := db (snd (handle r w)) in
  fst (handle r w) = Return pr ->
  total_votes s'
  = total_votes (db w) + (match r with ReqVote _ _ _ => 1 | _ => 0 end)
  ∧ total_likes s'
    = total_likes (db w) + (match r with ReqLike _ _ => 1 | _ => 0 end).
Proof.
  intros w s' Hret. apply (handle_totals r w pr); [|exact Hret].
  apply serve_keys_unique. split; apply NoDup_nil_2.
Qed.

Lemma totals_change_by_one_witness :
  ∃ pr,
    fst (handle (ReqVote 1 (mkVoteRequest 2) quiet)
           (serve [ReqCreate tea 100 quiet] world0)) = Return pr
    ∧ total_votes
        (db (snd (handle (ReqVote 1 (mkVoteRequest 2) quiet)
                    (serve [ReqCreate tea 100 quiet] world0))))
      = total_votes (db (serve [ReqCreate tea 100 quiet] world0)) + 1.
Proof.
  assert (H : ∃ pr, fst (handle (ReqVote 1 (mkVoteRequest 2) quiet)
                           (serve [ReqCreate tea 100 quiet] world0))
                    = Return pr) by (eexists; vm_compute; reflexivity).
  destruct H as [pr H]. exists pr. split; [exact H|].
  exact (proj1 (totals_change_by_one [ReqCreate tea 100 quiet] ∅ []
                  (ReqVote 1 (mkVoteRequest 2) quiet) pr H)).
Defined.

(** ** The life of a WebSocket connection *)

Lemma own_discards_meanwhile ops :
  own_discards (List.map Meanwhile ops) = [].
Proof. induction ops; simpl; auto. Qed.

(** The receive loop: it ends with the first exception of the inbound
    traffic, or stays suspended; it sends nothing and removes nothing. *)
Lemma receive_loop_run ws inbound : ∀ w,
  ∃ tr conns,
    receive_loop ws inbound w
    = (match first_raise inbound with
       | None => Pending
       | Some e => Raise e
       end,
       mkWorld (db w) conns (trace w ++ tr))
    ∧ (∀ c, delivered_to c tr = [])
    ∧ own_discards tr = [].
Proof.
  induction inbound as [|x inbound IH]; intros w.
  - exists [], (_connections w). simpl. unfold pending.
    rewrite app_nil_r. destruct w; auto.
  - simpl. rewrite bind_eq.
    unfold receive_text, bind, others, emit, raise. simpl.
    destruct (raised x) as [e|]; simpl.
    + eexists _, _. split; [reflexivity|]. split.
      * intros c. apply delivered_to_meanwhile.
      * apply own_discards_meanwhile.
    + match goal with |- context [receive_loop ws inbound ?w1] =>
        destruct (IH w1) as (tr & conns & Hrun & Hd & Ho) end.
      rewrite Hrun. simpl.
      exists (List.map Meanwhile (meanwhile x) ++ [ReceiveText ws] ++ tr), conns.
      split; [rewrite <- !app_assoc; reflexivity|]. split.
      * intros c. rewrite !delivered_to_app, delivered_to_meanwhile, Hd.
        reflexivity.
      * rewrite !own_discards_app, Ho, own_discards_meanwhile. reflexivity.
Qed.

(** One run of the endpoint after a successful handshake. *)
Lemma websocket_endpoint_run ws hs snap inbound w :
  raised hs = None ->
  ∃ rest conns,
    snd (websocket_endpoint ws hs snap inbound w)
    = mkWorld (db w) conns
        (trace w ++ List.map Meanwhile (meanwhile hs) ++ [Accept ws; Add ws]
                 ++ List.map Meanwhile (meanwhile snap)
                 ++ [SendJson ws
                       (poll_snapshot
                          (List.map (fun poll => serialize_poll (load (db w) poll))
                                    (select_polls_desc (db w))))
                       (match raised snap with None => true | _ => false end)]
                 ++ rest)
    ∧ (∀ c, delivered_to c rest = [])
    ∧ fst (websocket_endpoint ws hs snap inbound w)
      = match first_raise (snap :: inbound) with
        | None => Pending
        | Some WebSocketDisconnect => Return tt
        | Some e => Raise e
        end
    ∧ (first_raise (snap :: inbound) <> None ->
       (ws ∉ conns) ∧ ∃ before, rest = before ++ [Discard ws])
    ∧ (first_raise (snap :: inbound) = None -> own_discards rest = []).
Proof.
  intros Hhs. unfold websocket_endpoint.
  rewrite bind_eq, connect_run, Hhs.
  unfold try_except. rewrite bind_eq, list_polls_run. cbn [db].
  rewrite bind_eq, send_json_run. cbn [db _connections trace first_raise].
  destruct (raised snap) as [e|].
  - exists [Discard ws]. eexists.
    destruct e; simpl; unfold disconnect, discard; simpl;
      try rewrite bind_eq; simpl;
      (split; [rewrite <- !app_assoc; simpl; reflexivity|]);
      (split; [reflexivity|]); (split; [reflexivity|]);
      (split; [|congruence]); intros _;
      (split; [set_solver|exists []; reflexivity]).
  - match goal with |- context [receive_loop ws inbound ?w1] =>
      destruct (receive_loop_run ws inbound w1)
        as (tr & conns & Hrun & Hd & Ho) end.
    rewrite Hrun. cbn [db trace].
    destruct (first_raise inbound) as [e|].
    + exists (tr ++ [Discard ws]). eexists.
      destruct e; simpl; unfold disconnect, discard; simpl;
        try rewrite bind_eq; simpl;
        (split; [rewrite <- !app_assoc; simpl; reflexivity|]);
        (split; [intros c; rewrite delivered_to_app, Hd; reflexivity|]);
        (split; [reflexivity|]);
        (split; [|congruence]); intros _;
        (split; [set_solver|exists tr; reflexivity]).
    + exists tr, conns. simpl.
      split; [rewrite <- !app_assoc; simpl; reflexivity|].
      split; [exact Hd|]. split; [reflexivity|].
      split; [congruence|]. intros _. exact Ho.
Qed.

(** X18. After a successful handshake the endpoint runs until the first
    exception of the snapshot send or of the inbound traffic. Until then
    it stays suspended and does not unregister the connection. When the
    exception is [WebSocketDisconnect] it returns normally; any other
    exception is raised again. In both cases its last act is to
    unregister the connection, which is then out of the live set. *)
Theorem endpoint_unregisters_when_it_ends
    (ws : WebSocket) (hs snap : io) (inbound : list io) (w : World) :
  raised hs = None ->
  let r := websocket_endpoint ws hs snap inbound w in
  match first_raise (snap :: inbound) with
  | None => fst r = Pending ∧ own_discards (added_trace w (snd r)) = []
  | Some e =>
      fst r = (match e with WebSocketDisconnect => Return tt | _ => Raise e end)
      ∧ (ws ∉ _connections (snd r))
      ∧ ∃ before, added_trace w (snd r) = before ++ [Discard ws]
  end.
Proof.
  intros Hhs r. unfold r.
  destruct (websocket_endpoint_run ws hs snap inbound w Hhs)
    as (rest & conns & Hw & Hd & Hout & Hend & Hpend).
  rewrite Hw, Hout. erewrite added_trace_app by reflexivity.
  destruct (first_raise (snap :: inbound)) as [e|].
  - destruct Hend as [Hnot [before ->]]; [discriminate|].
    split; [destruct e; reflexivity|]. split; [exact Hnot|].
    eexists. rewrite !app_assoc. reflexivity.
  - split; [reflexivity|].
    rewrite !own_discards_app, (Hpend eq_refl), !own_discards_meanwhile.
    reflexivity.
Qed.

Lemma endpoint_unregisters_when_it_ends_witness :
  raised io_ok = None
  ∧ fst (websocket_endpoint 5%nat io_ok io_ok
           [io_ok; io_fail WebSocketDisconnect; io_ok] world37) = Return tt
  ∧ (5%nat ∉ _connections
               (snd (websocket_endpoint 5%nat io_ok io_ok
                       [io_ok; io_fail WebSocketDisconnect; io_ok] world37))).
Proof.
  split; [reflexivity|].
  destruct (endpoint_unregisters_when_it_ends 5%nat io_ok io_ok
              [io_ok; io_fail WebSocketDisconnect; io_ok] world37 eq_refl)
    as (Hr & Hout & _).
  split; [exact Hr|exact Hout].
Defined.

(** X19. When the handshake raises, the endpoint raises the same
    exception at once: it registers nothing, sends nothing, and is not
    caught by the handlers that unregister. *)
Theorem endpoint_handshake_failure
    (ws : WebSocket) (hs snap : io) (inbound : list io) (w : World) (e : exn) :
  raised hs = Some e ->
  let r := websocket_endpoint ws hs snap inbound w in
  fst r = Raise e
  ∧ db (snd r) = db w
  ∧ _connections (snd r) = apply_ops (meanwhile hs) (_connections w)
  ∧ added_trace w (snd r) = List.map Meanwhile (meanwhile hs).
Proof.
  intros Hhs r. unfold r, websocket_endpoint.
  rewrite bind_eq, connect_run, Hhs. cbn [fst snd db _connections].
  repeat split. apply added_trace_app. reflexivity.
Qed.

Lemma endpoint_handshake_failure_witness :
  raised (io_fail RuntimeError) = Some RuntimeError
  ∧ websocket_endpoint 5%nat (io_fail RuntimeError) io_ok [io_ok] world37
    = (Raise RuntimeError, world37).
Proof.
  split; [reflexivity|].
  destruct (endpoint_handshake_failure 5%nat (io_fail RuntimeError) io_ok
              [io_ok] world37 RuntimeError eq_refl) as (Hr & _).
  destruct (websocket_endpoint 5%nat (io_fail RuntimeError) io_ok [io_ok]
              world37) as [o w'] eqn:E.
  simpl in Hr. subst o. f_equal.
  apply (f_equal snd) in E. simpl in E. subst w'.
  vm_compute. reflexivity.
Defined.

(** X20. The endpoint never writes to the database, whatever the client
    sends. After a successful handshake the only message it sends is the
    snapshot, to its own connection, once: the connection is delivered
    the snapshot when that send succeeds and nothing when it raises, and
    no other connection is delivered anything by the endpoint. *)
Theorem endpoint_sends_only_the_snapshot
    (ws : WebSocket) (hs snap : io) (inbound : list io) (w : World) :
  let w' := snd (websocket_endpoint ws hs snap inbound w) in
  db w' = db w
  ∧ (raised hs = None ->
     delivered_to ws (added_trace w w')
     = (if fails (fun _ => snap) ws then []
        else [poll_snapshot
                (List.map (fun poll => serialize_poll (load (db w) poll))
                          (select_polls_desc (db w)))])
     ∧ ∀ c, c <> ws -> delivered_to c (added_trace w w') = []).
Proof.
  intros w'. unfold w'.
  destruct (raised hs) as [e|] eqn:Hhs.
  - split; [|discriminate].
    apply (endpoint_handshake_failure ws hs snap inbound w e Hhs).
  - destruct (websocket_endpoint_run ws hs snap inbound w Hhs)
      as (rest & conns & Hw & Hd & _).
    rewrite Hw. split; [reflexivity|]. intros _.
    erewrite added_trace_app by reflexivity.
    split; [|intros c Hc];
      rewrite !delivered_to_app, !delivered_to_meanwhile, Hd; simpl.
    + unfold fails. rewrite bool_decide_eq_true_2 by reflexivity.
      destruct (raised snap); reflexivity.
    + rewrite bool_decide_eq_false_2 by congruence.
      destruct (raised snap); reflexivity.
Qed.

Lemma endpoint_sends_only_the_snapshot_witness :
  raised io_ok = None
  ∧ List.map digest
      (delivered_to 5%nat
         (added_trace world_tea
            (snd (websocket_endpoint 5%nat io_ok io_ok [io_ok; io_ok]
                    world_tea))))
    = [("poll_snapshot"%string, [(0, [0; 0])])].
Proof.
  split; [reflexivity|].
  rewrite (proj1 (proj2 (endpoint_sends_only_the_snapshot
                           5%nat io_ok io_ok [io_ok; io_ok] world_tea)
                    eq_refl)).
  vm_compute. reflexivity.
Defined.

(** ** More on creating and voting *)






(** X22. A vote for an option that exists and belongs to the addressed
    poll always succeeds, and the response shows that option with one
    more vote than it had. *)
Theorem vote_for_own_option_succeeds
    (pid : Z) (vote : VoteRequest) (sched : WebSocket -> io) (w : World)
    (o : PollOption) :
  select_poll (db w) pid <> None ->
  get_option (db w) (option_id vote) = Some o ->
  poll_id o = pid ->
  ∃ pr, fst (vote_on_poll pid vote sched w) = Return pr
        ∧ pr_id pr = pid
        ∧ In (mkPollOptionRead (option_id vote) (text o) (votes o + 1))
             (pr_options pr).
Proof.
  intros Hp Ho Hpid. rewrite vote_on_poll_run.
  destruct (select_poll (db w) pid) as [p|] eqn:Ep; [|congruence].
  pose proof (select_poll_pk _ _ _ Ep) as Hpk.
  pose proof (get_option_pk _ _ _ Ho) as Hok.
  rewrite Ho.
  assert (Hsame : negb (poll_id o =? poll_pk p) = false).
  { apply negb_false_iff, Z.eqb_eq. congruence. }
  rewrite Hsame. cbn zeta. cbn [fst].
  eexists. split; [reflexivity|]. split; [exact Hpk|].
  unfold serialize_poll, load, options_of, update_votes.
  cbn [pr_options Main.options poll_options row poll_pk].
  apply in_map_iff.
  exists (mkPollOption (option_pk o) (text o) (votes o + 1) (poll_id o)).
  split; [unfold serialize_option; simpl; rewrite Hok; reflexivity|].
  apply List.filter_In. split.
  - apply in_map_iff. exists o. rewrite Z.eqb_refl. split; [reflexivity|].
    unfold get_option in Ho. apply List.find_some in Ho as [Hin _]. exact Hin.
  - simpl. apply Z.eqb_eq. congruence.
Qed.

Lemma vote_for_own_option_succeeds_witness :
  ∃ pr,
    fst (vote_on_poll 1 (mkVoteRequest 2) dead3 world_tea) = Return pr
    ∧ In (mkPollOptionRead 2 (lit "Coffee") 1) (pr_options pr).
Proof.
  destruct (vote_for_own_option_succeeds 1 (mkVoteRequest 2) dead3 world_tea
              (mkPollOption 2 (lit "Coffee") 0 1))
    as (pr & Hpr & _ & Hin).
  - vm_compute; discriminate.
  - vm_compute; reflexivity.
  - reflexivity.
  - exists pr. split; [exact Hpr|exact Hin].
Defined.

Lemma new_options_keys_above texts : ∀ tbl pid o' o,
  In o tbl -> In o' (new_options tbl pid texts) -> option_pk o < option_pk o'.
Proof.
  induction texts as [|t texts IH]; intros tbl pid o' o Ho Ho'; simpl in Ho';
    [destruct Ho'|].
  destruct Ho' as [<-|Ho'].
  - simpl. apply next_rowid_above, in_map, Ho.
  - eapply IH; [|exact Ho']. apply in_app_iff. left. exact Ho.
Qed.

(** X23. Keys are never reused: the key of a poll that [create_poll] has
    just created is greater than the key of every poll that was in the
    store, and the keys of its options are greater than the key of every
    option that was in the store. *)
Theorem created_keys_are_new
    (history : list Request) (observers : gset WebSocket)
    (sofar : list Action)
    (payload : PollCreate) (now : Z) (sched : WebSocket -> io)
    (pr : PollRead) :
  let w := serve history (mkWorld empty_store observers sofar) in
  fst (create_poll payload now sched w) = Return pr ->
  (∀ p, In p (polls (db w)) -> poll_pk p < pr_id pr)
  ∧ (∀ o o', In o (poll_options (db w)) -> In o' (pr_options pr) ->
             option_pk o < or_id o').
Proof.
  intros w.
  assert (Hfk : fk_ok (db w) = true) by (apply serve_fk_ok; reflexivity).
  rewrite create_poll_run. cbn zeta.
  destruct (length (clean_options (pc_options payload)) <? 2)%nat;
    [discriminate|].
  pose proof (insert_poll_options (db w) (strip (pc_question payload))
                (pc_description payload) now
                (clean_options (pc_options payload)) Hfk) as Hopt.
  unfold insert_poll in *. cbn [fst]. intros [= <-]. split.
  - intros p Hp. simpl. apply next_rowid_above, in_map, Hp.
  - intros o o' Ho Ho'. unfold serialize_poll, load in Ho'.
    cbn [pr_options Main.options row poll_pk] in Ho'.
    rewrite Hopt in Ho'. apply in_map_iff in Ho' as (n & <- & Hn).
    simpl. eapply new_options_keys_above; eassumption.
Qed.

Lemma created_keys_are_new_witness :
  ∃ pr,
    fst (create_poll blank_question 5 quiet
           (serve [ReqCreate tea 100 quiet] world0)) = Return pr
    ∧ 1 < pr_id pr.
Proof.
  assert (H : ∃ pr, fst (create_poll blank_question 5 quiet
                           (serve [ReqCreate tea 100 quiet] world0))
                    = Return pr) by (eexists; vm_compute; reflexivity).
  destruct H as [pr H]. exists pr. split; [exact H|].
  apply (proj1 (created_keys_are_new [ReqCreate tea 100 quiet] ∅ []
                  blank_question 5 quiet pr H)
           (mkPoll 1 (lit "Tea or coffee?") None 100 0)).
  vm_compute. auto.
Defined.

